(** * Duplicate-video bot: the store, the handlers and their properties

    A shallow embedding of [bot.py].  The two SQLite tables are lists of
    rows in rowid order, the two module-level cooldown dictionaries are
    finite maps from chat id to the last invocation time, and the Telegram
    client is an abstract messaging surface whose calls either return a
    value or raise.  Every call made on the surface is recorded, in order,
    in a trace, so that statements about what a handler attempted can be
    made on the trace.

    Timestamps ([datetime.now().timestamp()]) are exact rationals.  Storage
    errors are outside the model: every statement on the database succeeds,
    except for the one statement of [stats_command] that SQLite rejects when
    it prepares it. *)

From Stdlib Require Import QArith Qround.
From stdpp Require Import base list gmap strings sorting.

Local Open Scope Z_scope.

(** ** Rows of the two tables *)

(** [videos]: PRIMARY KEY (file_unique_id, message_id). *)
Record video_row := VideoRow {
  file_unique_id : string;
  file_id : string;
  count : Z;
  first_seen : string;
  chat_id : Z;
  message_id : Z
}.

(** [report_messages]: id INTEGER PRIMARY KEY AUTOINCREMENT. *)
Record report_row := ReportRow {
  report_rowid : Z;
  report_chat_id : Z;
  report_message_id : Z;
  report_type : string;
  created_at : string
}.

#[global] Instance video_row_eq_dec : EqDecision video_row.
Proof. solve_decision. Defined.

#[global] Instance report_row_eq_dec : EqDecision report_row.
Proof. solve_decision. Defined.

(** The primary key of a row of [videos]. *)
Definition video_key (r : video_row) : string * Z :=
  (file_unique_id r, message_id r).

(** ** video_handler *)

(** What the handler reads from an update that carries a video, together
    with the clock reading used for [first_seen]. *)
Record video_update := VideoUpdate {
  upd_file_id : string;
  upd_unique_id : string;
  upd_chat_id : Z;
  upd_message_id : Z;
  upd_now_iso : string
}.

(** The number of stored rows with a given [file_unique_id]. *)
Definition rows_with (u : string) (vs : list video_row) : Z :=
  Z.of_nat (length (filter (λ r, file_unique_id r = u) vs)).

(** INSERT OR IGNORE INTO videos VALUES (?, ?, ?, ?, ?, ?) *)
Definition insert_or_ignore (r : video_row) (vs : list video_row)
  : list video_row :=
  if decide (video_key r ∈ video_key <$> vs) then vs else vs ++ [r].

(** SELECT COUNT( * ) FROM videos WHERE file_unique_id = ?
    followed by [fetchone]: an aggregate without GROUP BY always yields
    one row. *)
Definition select_count (u : string) (vs : list video_row) : option Z :=
  Some (rows_with u vs).

Definition set_count (n : Z) (r : video_row) : video_row :=
  VideoRow (file_unique_id r) (file_id r) n (first_seen r)
           (chat_id r) (message_id r).

(** UPDATE videos SET count = ? WHERE file_unique_id = ? *)
Definition update_count (n : Z) (u : string) (vs : list video_row)
  : list video_row :=
  (λ r, if decide (file_unique_id r = u) then set_count n r else r) <$> vs.

(** The body of [video_handler] on the [videos] table.  [None] stands for
    an update without a message or without a video, which is only logged. *)
Definition video_handler (upd : option video_update) (vs : list video_row)
  : list video_row :=
  match upd with
  | None => vs
  | Some v =>
      let unique_id := upd_unique_id v in
      let vs1 :=
        insert_or_ignore
          (VideoRow unique_id (upd_file_id v) 0 (upd_now_iso v)
                    (upd_chat_id v) (upd_message_id v)) vs in
      let result := select_count unique_id vs1 in
      let total_for_file :=
        match result with Some n => n | None => 1 end in
      update_count total_for_file unique_id vs1
  end.

(** A run of the recorder over a sequence of updates, oldest first. *)
Definition record_all (upds : list (option video_update))
    (vs : list video_row) : list video_row :=
  foldl (λ acc u, video_handler u acc) vs upds.

(** The denormalisation invariant: the [count] column of every row is the
    number of rows with the same [file_unique_id]. *)
Definition count_consistent (vs : list video_row) : Prop :=
  ∀ r, r ∈ vs → count r = rows_with (file_unique_id r) vs.

(** The primary key constraint of [videos]. *)
Definition pk_unique (vs : list video_row) : Prop :=
  NoDup (video_key <$> vs).

(** ** Configuration *)

Definition MAX_REPORT_VIDEOS : nat := 10.
Definition REPORT_COOLDOWN : Z := 30.
Definition DELETE_COOLDOWN : Z := 60.

(** ** The messaging surface *)

(** The texts the handlers send, with the values their f-strings embed. *)
Inductive text :=
  | WaitReport (remaining : Z)
  | WaitDelete (remaining : Z)
  | NoRepeatedVideos
  | ReportHeader (sets : nat)
  | CouldNotSendVideo (i : nat)
  | ReportFailed
  | OnlyAdmins
  | CouldNotVerifyAdmin
  | DeletedSummary (total reports duplicates : nat)
  | DeleteFailed.

(** The calls of the Telegram client the handlers make.  A call that
    raises returns [None] (or [false]); the world it leaves behind is
    arbitrary.  [send_video chat video i total_count] carries the two
    numbers of the caption. *)
Class Surface (World : Type) := {
  send_video : Z → string → nat → Z → World → option Z * World;
  reply_text : Z → text → World → option Z * World;
  delete_message : Z → Z → World → bool * World;
  get_member : Z → Z → World → option string * World;
  sleep : World → World;
  now_iso : World → string
}.

(** What a handler did, in order.  [DeleteDuplicate] is the call of
    [delete_message] made by the duplicates loop, tagged with the row
    [(unique_id, message_id, video_chat_id)] of the iteration making it;
    [DeleteReportMessage] is the call made by the report-messages loop.
    The two [Log] events are the closing [logger.info] lines. *)
Inductive event :=
  | Reply (chat : Z) (t : text) (res : option Z)
  | SendVideo (chat : Z) (video : string) (i : nat) (total_count : Z)
              (res : option Z)
  | Sleep
  | GetMember (chat user : Z) (res : option string)
  | DeleteReportMessage (chat mid : Z) (ok : bool)
  | DeleteDuplicate (unique_id : string) (mid chat : Z) (ok : bool)
  | LogReportCompleted (videos_sent : nat) (chat : Z)
  | LogDeleteCompleted (total reports duplicates : nat) (chat : Z).

#[global] Instance text_eq_dec : EqDecision text.
Proof. solve_decision. Defined.

#[global] Instance event_eq_dec : EqDecision event.
Proof. solve_decision. Defined.

(** ** The state of the bot *)

Record bot_state := BotState {
  videos : list video_row;
  report_messages : list report_row;
  report_seq : Z;
  last_report_usage : gmap Z Q;
  last_delete_usage : gmap Z Q
}.

(** ** The cooldown check shared by /report and /delete_duplicates *)

(** Python's [int] on a float: truncation toward zero. *)
Definition py_int (q : Q) : Z := Z.quot (Qnum q) (Z.pos (Qden q)).

Inductive gate :=
  | Allowed (usage : gmap Z Q)
  | Denied (remaining : Z).

(** Lines 159-166 and 237-244 are this check, on [last_report_usage] with
    [REPORT_COOLDOWN] and on [last_delete_usage] with [DELETE_COOLDOWN]. *)
Definition rate_limit (cooldown : Z) (usage : gmap Z Q) (chat : Z)
    (current_time : Q) : gate :=
  match usage !! chat with
  | Some last =>
      let time_diff := (current_time - last)%Q in
      if Qlt_le_dec time_diff (inject_Z cooldown)
      then Denied (py_int (inject_Z cooldown - time_diff)%Q)
      else Allowed (<[chat := current_time]> usage)
  | None => Allowed (<[chat := current_time]> usage)
  end.

(** ** A stable sort *)

(** Insertion sort that puts an element before the elements it ties
    with, so that elements that compare equal keep the order they arrive
    in: the way rows leave an index scan and SQLite's sorter. *)
Fixpoint insert_before_ties {A} (R : relation A) `{!RelDecision R}
    (x : A) (l : list A) : list A :=
  match l with
  | [] => [x]
  | y :: l' =>
      if decide (R x y) then x :: y :: l'
      else y :: insert_before_ties R x l'
  end.

Definition stable_sort {A} (R : relation A) `{!RelDecision R}
    (l : list A) : list A :=
  foldr (insert_before_ties R) [] l.

(** ** The queries *)

(** The order in which the database engine visits the rows of [videos]
    when a statement does not fix it (table scan, index scan): some
    rearrangement of the table. *)
Class Engine := {
  visit : list video_row → list video_row;
  visit_perm vs : visit vs ≡ₚ vs
}.

(** One row of the report query: file_unique_id, file_id, total_count. *)
Definition repeated_row : Type := string * string * Z.

Definition rr_unique_id (t : repeated_row) : string := t.1.1.
Definition rr_total_count (t : repeated_row) : Z := t.2.

(** ORDER BY total_count DESC *)
Definition total_count_desc (a b : repeated_row) : Prop :=
  rr_total_count b ≤ rr_total_count a.

#[global] Instance total_count_desc_dec : RelDecision total_count_desc.
Proof. intros a b. unfold total_count_desc. apply _. Defined.

(** GROUP BY file_unique_id with the select list
    file_unique_id, file_id, COUNT( * ): one row per distinct key, the bare
    column [file_id] taken from a row of the group. *)
Definition group_by_unique_id (scan : list video_row) : list repeated_row :=
  (λ u, (u,
         default ""%string
           (file_id <$> head (filter (λ r, file_unique_id r = u) scan)),
         rows_with u scan))
    <$> remove_dups (file_unique_id <$> scan).

(** SELECT file_unique_id, file_id, COUNT( * ) AS total_count FROM videos
    GROUP BY file_unique_id HAVING total_count > 1
    ORDER BY total_count DESC
    The sorter orders by total_count alone and leaves groups of equal
    total_count in the order GROUP BY hands them over. *)
Definition select_repeated {engine : Engine} (vs : list video_row)
  : list repeated_row :=
  stable_sort total_count_desc
    (filter (λ t, 1 < rr_total_count t) (group_by_unique_id (visit vs))).

(** ORDER BY file_unique_id, message_id: text compared bytewise, then
    integers. *)
Definition key_le (a b : video_row) : Prop :=
  String.le (file_unique_id a) (file_unique_id b) ∧
  (file_unique_id a = file_unique_id b → message_id a ≤ message_id b).

#[global] Instance key_le_dec : RelDecision key_le.
Proof. intros a b. unfold key_le. apply _. Defined.

(** SELECT file_unique_id, message_id, chat_id FROM videos
    WHERE file_unique_id IN
      (SELECT file_unique_id FROM videos GROUP BY file_unique_id
       HAVING COUNT( * ) > 1)
    ORDER BY file_unique_id, message_id *)
Definition duplicate_rows (vs : list video_row) : list video_row :=
  merge_sort key_le (filter (λ r, 1 < rows_with (file_unique_id r) vs) vs).

Definition select_duplicates (vs : list video_row) : list (string * Z * Z) :=
  (λ r, (file_unique_id r, message_id r, chat_id r)) <$> duplicate_rows vs.

(** SELECT message_id FROM report_messages WHERE chat_id = ? *)
Definition select_report_messages (chat : Z) (rs : list report_row)
  : list Z :=
  report_message_id <$> filter (λ r, report_chat_id r = chat) rs.

(** DELETE FROM report_messages WHERE chat_id = ? *)
Definition clear_report_messages (chat : Z) (rs : list report_row)
  : list report_row :=
  filter (λ r, report_chat_id r ≠ chat) rs.

(** DELETE FROM videos WHERE file_unique_id = ? AND message_id = ?,
    once per pair ([executemany]). *)
Definition delete_videos (keys : list (string * Z)) (vs : list video_row)
  : list video_row :=
  foldl (λ acc k, filter (λ r, video_key r ≠ k) acc) vs keys.

(** What the report loop collects in [messages_to_store]:
    chat_id, message_id, report_type, created_at. *)
Definition artifact : Type := Z * Z * string * string.

(** INSERT INTO report_messages (chat_id, message_id, report_type,
    created_at) VALUES (?, ?, ?, ?), once per tuple; the ids continue the
    table's sequence. *)
Fixpoint insert_report_messages (seq : Z) (arts : list artifact)
  : list report_row * Z :=
  match arts with
  | [] => ([], seq)
  | (c, m, ty, at_) :: rest =>
      let '(rows, seq') := insert_report_messages (seq + 1) rest in
      (ReportRow (seq + 1) c m ty at_ :: rows, seq')
  end.

(** ** report_command and delete_duplicates *)

Definition is_admin (status : string) : bool :=
  bool_decide (status ∈ ["administrator"; "creator"]%string).

Section handlers.
Context {World : Type} {surface : Surface World} {engine : Engine}.

(** A handler returns the new state, the world it leaves and the trace
    of what it did. *)
Definition outcome : Type := bot_state * World * list event.

(** The outer [except] of [report_command]: one more reply, whose own
    failure is ignored. *)
Definition report_failed (chat : Z) (st : bot_state) (w : World)
    (tr : list event) : outcome :=
  let '(res, w') := reply_text chat ReportFailed w in
  (st, w', tr ++ [Reply chat ReportFailed res]).

(** The loop of lines 191-209 over [repeated[:MAX_REPORT_VIDEOS]],
    [i] being the index [enumerate] gives the head.  It returns what the
    loop appends to [messages_to_store], what it adds to [videos_sent],
    the world and the trace. *)
Fixpoint report_loop (chat : Z) (i : nat) (items : list repeated_row)
    (w : World) : list artifact * nat * World * list event :=
  match items with
  | [] => ([], 0%nat, w, [])
  | (unique_id, video, total_count) :: rest =>
      let '(sent_msg, w1) := send_video chat video i total_count w in
      match sent_msg with
      | Some mid =>
          let stored := (chat, mid, "video"%string, now_iso w1) in
          let w2 := sleep w1 in
          let '(arts, sent, w3, tr) := report_loop chat (S i) rest w2 in
          (stored :: arts, S sent, w3,
           SendVideo chat video i total_count (Some mid) :: Sleep :: tr)
      | None =>
          let '(error_msg, w2) :=
            reply_text chat (CouldNotSendVideo i) w1 in
          let stored :=
            match error_msg with
            | Some emid => [(chat, emid, "error"%string, now_iso w2)]
            | None => []
            end in
          let '(arts, sent, w3, tr) := report_loop chat (S i) rest w2 in
          (stored ++ arts, sent, w3,
           SendVideo chat video i total_count None
             :: Reply chat (CouldNotSendVideo i) error_msg :: tr)
      end
  end.

Definition report_command (chat : Z) (current_time : Q) (st : bot_state)
    (w : World) : outcome :=
  match rate_limit REPORT_COOLDOWN (last_report_usage st) chat
                   current_time with
  | Denied remaining =>
      let '(res, w1) := reply_text chat (WaitReport remaining) w in
      let tr := [Reply chat (WaitReport remaining) res] in
      match res with
      | Some _ => (st, w1, tr)
      | None => report_failed chat st w1 tr
      end
  | Allowed usage =>
      let st1 := BotState (videos st) (report_messages st) (report_seq st)
                          usage (last_delete_usage st) in
      let repeated := select_repeated (videos st1) in
      match repeated with
      | [] =>
          let '(res, w1) := reply_text chat NoRepeatedVideos w in
          let tr := [Reply chat NoRepeatedVideos res] in
          match res with
          | Some _ => (st1, w1, tr)
          | None => report_failed chat st1 w1 tr
          end
      | _ :: _ =>
          let header := ReportHeader (length repeated) in
          let '(report_msg, w1) := reply_text chat header w in
          match report_msg with
          | None => report_failed chat st1 w1 [Reply chat header None]
          | Some hid =>
              let first := (chat, hid, "header"%string, now_iso w1) in
              let '(arts, videos_sent, w2, tr) :=
                report_loop chat 1 (take MAX_REPORT_VIDEOS repeated) w1 in
              let '(rows, seq') :=
                insert_report_messages (report_seq st1) (first :: arts) in
              (BotState (videos st1) (report_messages st1 ++ rows) seq'
                        usage (last_delete_usage st1),
               w2,
               Reply chat header (Some hid)
                 :: tr ++ [LogReportCompleted videos_sent chat])
          end
      end
  end.

(** The outer [except] of [delete_duplicates]. *)
Definition delete_failed (chat : Z) (st : bot_state) (w : World)
    (tr : list event) : outcome :=
  let '(res, w') := reply_text chat DeleteFailed w in
  (st, w', tr ++ [Reply chat DeleteFailed res]).

(** The inner [except] around the admin check. *)
Definition could_not_verify (chat : Z) (st : bot_state) (w : World)
    (tr : list event) : outcome :=
  let '(res, w1) := reply_text chat CouldNotVerifyAdmin w in
  let tr' := tr ++ [Reply chat CouldNotVerifyAdmin res] in
  match res with
  | Some _ => (st, w1, tr')
  | None => delete_failed chat st w1 tr'
  end.

(** The loop of lines 268-274; returns [report_deleted]. *)
Fixpoint delete_report_loop (chat : Z) (mids : list Z) (w : World)
  : nat * World * list event :=
  match mids with
  | [] => (0%nat, w, [])
  | mid :: rest =>
      let '(ok, w1) := delete_message chat mid w in
      let '(n, w2, tr) := delete_report_loop chat rest w1 in
      (if ok then S n else n, w2, DeleteReportMessage chat mid ok :: tr)
  end.

(** The loop of lines 301-312; returns [videos_to_delete] and
    [duplicates_deleted]. *)
Fixpoint delete_duplicate_loop (rows : list (string * Z * Z))
    (last_unique : option string) (w : World)
  : list (string * Z) * nat * World * list event :=
  match rows with
  | [] => ([], 0%nat, w, [])
  | (unique_id, mid, video_chat_id) :: rest =>
      if decide (Some unique_id ≠ last_unique)
      then delete_duplicate_loop rest (Some unique_id) w
      else
        let '(ok, w1) := delete_message video_chat_id mid w in
        let '(dels, n, w2, tr) :=
          delete_duplicate_loop rest last_unique w1 in
        (if ok then (unique_id, mid) :: dels else dels,
         if ok then S n else n,
         w2,
         DeleteDuplicate unique_id mid video_chat_id ok :: tr)
  end.

(** Lines 257-326: what runs once the cooldown and the admin check
    have let the command through. *)
Definition cleanup (chat : Z) (st : bot_state) (w : World) : outcome :=
  let report_ids := select_report_messages chat (report_messages st) in
  let '(report_deleted, w1, tr1) := delete_report_loop chat report_ids w in
  let reports' := clear_report_messages chat (report_messages st) in
  let rows := select_duplicates (videos st) in
  let '(videos_to_delete, duplicates_deleted, w2, tr2) :=
    delete_duplicate_loop rows None w1 in
  let videos' :=
    match videos_to_delete with
    | [] => videos st
    | _ :: _ => delete_videos videos_to_delete (videos st)
    end in
  let total_deleted := (report_deleted + duplicates_deleted)%nat in
  let st' := BotState videos' reports' (report_seq st)
                      (last_report_usage st) (last_delete_usage st) in
  let summary :=
    DeletedSummary total_deleted report_deleted duplicates_deleted in
  let '(res, w3) := reply_text chat summary w2 in
  let tr :=
    tr1 ++ tr2 ++
    [LogDeleteCompleted total_deleted report_deleted duplicates_deleted
                        chat;
     Reply chat summary res] in
  match res with
  | Some _ => (st', w3, tr)
  | None => delete_failed chat st' w3 tr
  end.

Definition delete_duplicates (chat user : Z) (current_time : Q)
    (st : bot_state) (w : World) : outcome :=
  match rate_limit DELETE_COOLDOWN (last_delete_usage st) chat
                   current_time with
  | Denied remaining =>
      let '(res, w1) := reply_text chat (WaitDelete remaining) w in
      let tr := [Reply chat (WaitDelete remaining) res] in
      match res with
      | Some _ => (st, w1, tr)
      | None => delete_failed chat st w1 tr
      end
  | Allowed usage =>
      let st1 := BotState (videos st) (report_messages st) (report_seq st)
                          (last_report_usage st) usage in
      let '(member, w1) := get_member chat user w in
      let tr0 := [GetMember chat user member] in
      match member with
      | None => could_not_verify chat st1 w1 tr0
      | Some status =>
          if is_admin status
          then
            let '(st2, w2, tr) := cleanup chat st1 w1 in
            (st2, w2, tr0 ++ tr)
          else
            let '(res, w2) := reply_text chat OnlyAdmins w1 in
            let tr1 := tr0 ++ [Reply chat OnlyAdmins res] in
            match res with
            | Some _ => (st1, w2, tr1)
            | None => could_not_verify chat st1 w2 tr1
            end
      end
  end.

End handlers.

(** ** stats_command *)

(** The select lists of the aggregate queries of [stats_command]. *)
Inductive sql_expr :=
  | CountStar
  | SumOf (e : sql_expr)
  | Minus (e1 e2 : sql_expr)
  | IntLit (n : Z).

Fixpoint uses_aggregate (e : sql_expr) : bool :=
  match e with
  | CountStar | SumOf _ => true
  | Minus a b => uses_aggregate a || uses_aggregate b
  | IntLit _ => false
  end.

(** SQLite resolves the names of a statement when it prepares it, and
    rejects an aggregate inside the argument of an aggregate
    ("misuse of aggregate function COUNT()"). *)
Fixpoint resolves (e : sql_expr) : bool :=
  match e with
  | CountStar | IntLit _ => true
  | SumOf a => negb (uses_aggregate a) && resolves a
  | Minus a b => resolves a && resolves b
  end.

(** The value of an expression on one row (there are no columns in the
    expressions at hand). *)
Fixpoint eval_row (e : sql_expr) : Z :=
  match e with
  | IntLit n => n
  | Minus a b => eval_row a - eval_row b
  | CountStar | SumOf _ => 0
  end.

(** The value of a resolved expression on one group of rows. *)
Fixpoint eval_group (e : sql_expr) (g : list video_row) : Z :=
  match e with
  | CountStar => Z.of_nat (length g)
  | SumOf a => foldr (λ _ acc, eval_row a + acc) 0 g
  | Minus a b => eval_group a g - eval_group b g
  | IntLit n => n
  end.

(** GROUP BY file_unique_id: the groups of rows. *)
Definition groups (scan : list video_row) : list (list video_row) :=
  (λ u, filter (λ r, file_unique_id r = u) scan)
    <$> remove_dups (file_unique_id <$> scan).

(** SELECT e FROM videos GROUP BY file_unique_id HAVING COUNT( * ) > 1:
    [None] when the statement is rejected, otherwise one value per group
    that passes HAVING. *)
Definition select_having_many (e : sql_expr) (scan : list video_row)
  : option (list Z) :=
  if resolves e
  then Some (eval_group e
               <$> filter (λ g, (1 < length g)%nat) (groups scan))
  else None.

(** SUM(COUNT( * ) - 1), the select list of lines 363-367. *)
Definition total_duplicates_expr : sql_expr :=
  SumOf (Minus CountStar (IntLit 1)).

(** MIN(first_seen): the least string, NULL on an empty table. *)
Definition min_first_seen (vs : list video_row) : option string :=
  foldr (λ r acc,
           match acc with
           | None => Some (first_seen r)
           | Some m =>
               if decide (String.le (first_seen r) m)
               then Some (first_seen r) else Some m
           end) None vs.

(** What [stats_command] replies: the figures of the statistics text, or
    the notice of its [except] branch. *)
Inductive stats_reply :=
  | StatsText (total_videos unique_videos duplicate_sets : nat)
              (total_duplicates : Z) (report_messages : nat)
              (oldest_date : string)
  | CouldNotRetrieveStatistics.

Definition stats_command {engine : Engine} (chat : Z) (st : bot_state)
  : stats_reply :=
  let scan := visit (videos st) in
  let total_videos := length (videos st) in
  let unique_videos := length (remove_dups (file_unique_id <$> scan)) in
  let duplicate_sets :=
    length (filter (λ g, (1 < length g)%nat) (groups scan)) in
  match select_having_many total_duplicates_expr scan with
  | None => CouldNotRetrieveStatistics
  | Some rows =>
      let result := head rows in
      let total_duplicates :=
        match result with
        | Some n => if decide (n = 0) then 0 else n
        | None => 0
        end in
      let reports :=
        length (filter (λ r, report_chat_id r = chat) (report_messages st)) in
      let oldest_date := default "N/A"%string (min_first_seen (videos st)) in
      StatsText total_videos unique_videos duplicate_sets total_duplicates
                reports oldest_date
  end.

(** The figure the specification calls total_excess_duplicates: the sum,
    over the keys stored more than once, of the number of rows minus one. *)
Definition total_excess_duplicates (vs : list video_row) : Z :=
  foldr Z.add 0
    ((λ u, rows_with u vs - 1)
       <$> filter (λ u, 1 < rows_with u vs)
             (remove_dups (file_unique_id <$> vs))).

(** ** Notions used in the statements *)

(** The kept occurrence of a key: the stored row with the least
    [message_id] among the rows of its key. *)
Definition kept (vs : list video_row) (r : video_row) : Prop :=
  r ∈ vs ∧
  ∀ r', r' ∈ vs → file_unique_id r' = file_unique_id r →
        message_id r ≤ message_id r'.

(** ORDER BY total_count DESC, file_unique_id ASC: the order the
    specification gives to the report query. *)
Definition count_desc_then_key (a b : repeated_row) : Prop :=
  rr_total_count b < rr_total_count a ∨
  (rr_total_count a = rr_total_count b ∧
   String.le (rr_unique_id a) (rr_unique_id b)).

#[global] Instance count_desc_then_key_dec : RelDecision count_desc_then_key.
Proof. intros a b. unfold count_desc_then_key. apply _. Defined.

(** The two columns of a row of the report query that the stored rows
    determine: file_unique_id and total_count. *)
Definition key_and_count (t : repeated_row) : string * Z :=
  (rr_unique_id t, rr_total_count t).

(** [count_desc_then_key] on those two columns. *)
Definition pair_count_desc_then_key (a b : string * Z) : Prop :=
  b.2 < a.2 ∨ (a.2 = b.2 ∧ String.le a.1 b.1).

Definition is_send (e : event) : bool :=
  match e with SendVideo _ _ _ _ _ => true | _ => false end.

Definition is_successful_send (e : event) : bool :=
  match e with SendVideo _ _ _ _ (Some _) => true | _ => false end.

(** The attempt a [SendVideo] event records: video, index, count. *)
Definition attempt_of (e : event) : option (string * nat * Z) :=
  match e with
  | SendVideo _ video i n _ => Some (video, i, n)
  | _ => None
  end.

(** What an event of the report loop leaves in [messages_to_store]:
    chat, message id and type. *)
Definition stored_of (e : event) : option (Z * Z * string) :=
  match e with
  | SendVideo chat _ _ _ (Some mid) => Some (chat, mid, "video"%string)
  | Reply chat (CouldNotSendVideo _) (Some mid) =>
      Some (chat, mid, "error"%string)
  | _ => None
  end.

(** The same three columns of a stored report row. *)
Definition report_columns (r : report_row) : Z * Z * string :=
  (report_chat_id r, report_message_id r, report_type r).

(** A trace is paced when every [Sleep] comes right after a successful
    [SendVideo] and every successful [SendVideo] is followed at once by a
    [Sleep]; the flag tells whether a [Sleep] is due next. *)
Fixpoint paced (due : bool) (tr : list event) : bool :=
  match tr with
  | [] => negb due
  | e :: rest =>
      if due
      then match e with Sleep => paced false rest | _ => false end
      else match e with
           | Sleep => false
           | SendVideo _ _ _ _ (Some _) => paced true rest
           | _ => paced false rest
           end
  end.

(** A failed [SendVideo] is followed at once by the attempt to send the
    notice about that item, and such a notice is sent nowhere else; the
    option holds the index of the item whose notice is due. *)
Fixpoint noticed (due : option nat) (tr : list event) : bool :=
  match tr with
  | [] => bool_decide (due = None)
  | e :: rest =>
      match due with
      | Some i =>
          match e with
          | Reply _ (CouldNotSendVideo j) _ =>
              bool_decide (i = j) && noticed None rest
          | _ => false
          end
      | None =>
          match e with
          | Reply _ (CouldNotSendVideo _) _ => false
          | SendVideo _ _ i _ None => noticed (Some i) rest
          | _ => noticed None rest
          end
      end
  end.

(** What [enumerate(items, start=i)] hands to [send_video]: video, index
    and count of each item. *)
Fixpoint captions (i : nat) (items : list repeated_row)
  : list (string * nat * Z) :=
  match items with
  | [] => []
  | t :: rest => (t.1.2, i, rr_total_count t) :: captions (S i) rest
  end.

(** Chat, message id and type of a collected artifact. *)
Definition artifact_columns (a : artifact) : Z * Z * string :=
  (a.1.1.1, a.1.1.2, a.1.2).

(** ** A small messaging surface and two engines, for examples *)

(** The world is the next message id.  A video whose file_id is "broken"
    cannot be sent, message 404 cannot be deleted, user 1 is an
    administrator, user 2 a plain member and any other user cannot be
    looked up. *)
#[global] Instance sim_surface : Surface Z := {|
  send_video _ video _ _ w :=
    if decide (video = "broken"%string) then (None, w) else (Some w, w + 1);
  reply_text _ _ w := (Some w, w + 1);
  delete_message _ mid w := (bool_decide (mid ≠ 404), w);
  get_member _ user w :=
    (if decide (user = 1) then Some "administrator"%string
     else if decide (user = 2) then Some "member"%string else None, w);
  sleep w := w;
  now_iso _ := "2024-05-01T12:00:00"%string
|}.

(** The order of the index idx_videos_unique_id: file_unique_id, text
    compared bytewise. *)
Definition unique_id_le (a b : video_row) : Prop :=
  String.le (file_unique_id a) (file_unique_id b).

#[global] Instance unique_id_le_dec : RelDecision unique_id_le.
Proof. intros a b. unfold unique_id_le. apply _. Defined.

(** The way SQLite runs the grouped queries on [videos]: it scans the
    table through idx_videos_unique_id, that is in order of
    file_unique_id and, within one file_unique_id, in rowid order. *)
Definition sqlite_engine : Engine.
Proof.
  refine {| visit := stable_sort unique_id_le |}.
  assert (∀ (x : video_row) l,
            insert_before_ties unique_id_le x l ≡ₚ x :: l) as Hins.
  { intros x l. induction l as [|y l IH]; [done|]. simpl.
    destruct (decide (unique_id_le x y)); [done|].
    rewrite IH. apply perm_swap. }
  intros vs. induction vs as [|x vs IH]; [done|].
  unfold stable_sort in *. simpl. by rewrite Hins, IH.
Defined.

Definition example_row (u : string) (m : Z) : video_row :=
  VideoRow u ("file-" +:+ u) 2 "2024-05-01T11:00:00" 1 m.

(** "b" posted twice, then "a" posted twice. *)
Definition two_tied_sets : list video_row :=
  [example_row "b" 10; example_row "b" 20;
   example_row "a" 30; example_row "a" 40].

Definition empty_state (vs : list video_row) : bot_state :=
  BotState vs [] 0 ∅ ∅.

(** Two sets, one of whose later messages (404) cannot be deleted, and one
    report message in each of the chats 5 and 6. *)
Definition cleanup_example : bot_state :=
  BotState
    [example_row "a" 30; example_row "a" 404;
     example_row "b" 10; example_row "b" 20]
    [ReportRow 1 5 90 "header" "2024-05-01T11:30:00";
     ReportRow 2 6 91 "header" "2024-05-01T11:40:00"]
    2 ∅ ∅.

(** Three sets of sizes 4, 3 and 2; the video of the second one cannot be
    sent. *)
Definition three_sets : list video_row :=
  [VideoRow "x" "clip-x" 4 "2024-05-01T09:00:00" 1 1;
   VideoRow "x" "clip-x" 4 "2024-05-01T09:01:00" 1 2;
   VideoRow "x" "clip-x" 4 "2024-05-01T09:02:00" 1 3;
   VideoRow "x" "clip-x" 4 "2024-05-01T09:03:00" 1 4;
   VideoRow "y" "broken" 3 "2024-05-01T09:04:00" 1 5;
   VideoRow "y" "broken" 3 "2024-05-01T09:05:00" 1 6;
   VideoRow "y" "broken" 3 "2024-05-01T09:06:00" 1 7;
   VideoRow "z" "clip-z" 2 "2024-05-01T09:07:00" 1 8;
   VideoRow "z" "clip-z" 2 "2024-05-01T09:08:00" 1 9].

(** The two command families that share the cooldown check. *)
Inductive family := ReportFamily | DeleteFamily.

Definition window (f : family) : Z :=
  match f with
  | ReportFamily => REPORT_COOLDOWN
  | DeleteFamily => DELETE_COOLDOWN
  end.

Definition usage_of (f : family) (st : bot_state) : gmap Z Q :=
  match f with
  | ReportFamily => last_report_usage st
  | DeleteFamily => last_delete_usage st
  end.

Definition wait_notice (f : family) (remaining : Z) : text :=
  match f with
  | ReportFamily => WaitReport remaining
  | DeleteFamily => WaitDelete remaining
  end.

Definition run_command {World : Type} {surface : Surface World}
    {engine : Engine} (f : family)
    (chat user : Z) (current_time : Q) (st : bot_state) (w : World)
  : bot_state * World * list event :=
  match f with
  | ReportFamily => report_command chat current_time st w
  | DeleteFamily => delete_duplicates chat user current_time st w
  end.

Definition is_delete (e : event) : bool :=
  match e with
  | DeleteReportMessage _ _ _ | DeleteDuplicate _ _ _ _ => true
  | _ => false
  end.

Definition is_reply (e : event) : bool :=
  match e with Reply _ _ _ => true | _ => false end.

Definition example_update (fid time : string) : video_update :=
  VideoUpdate fid "A" 1 10 time.

(** A state in which both commands were last run in chat 5 at [t0]. *)
Definition armed_state (t0 : Q) : bot_state :=
  BotState two_tied_sets [] 0 {[ 5 := t0 ]} {[ 5 := t0 ]}.

(** The message ids under which a file_unique_id occurs in a sequence of
    updates, each listed once. *)
Definition seen_messages (u : string) (upds : list (option video_update))
  : list Z :=
  remove_dups
    (omap (λ o : option video_update,
             match o with
             | Some v =>
                 if decide (upd_unique_id v = u)
                 then Some (upd_message_id v) else None
             | None => None
             end) upds).

(** Two rows that agree on everything but the [count] column. *)
Definition same_occurrence (r r' : video_row) : Prop :=
  video_key r' = video_key r ∧ file_id r' = file_id r ∧
  first_seen r' = first_seen r ∧ chat_id r' = chat_id r.

(** The order of the rows of the duplicates query: by key, and within a
    key by strictly increasing message id. *)
Definition by_key_then_message (a b : string * Z * Z) : Prop :=
  String.le a.1.1 b.1.1 ∧ (a.1.1 = b.1.1 → a.1.2 < b.1.2).

(** The message id of a call of the report-messages loop. *)
Definition report_delete_of (e : event) : option Z :=
  match e with
  | DeleteReportMessage _ mid _ => Some mid
  | _ => None
  end.

Definition is_successful_report_delete (e : event) : bool :=
  match e with DeleteReportMessage _ _ true => true | _ => false end.

(** Three updates: "A" in messages 10 and 20 of chat 1, and message 10
    again, delivered a second time. *)
Definition example_updates : list (option video_update) :=
  [Some (VideoUpdate "file-1" "A" 1 10 "2024-05-01T10:00:00");
   Some (VideoUpdate "file-2" "A" 1 20 "2024-05-01T10:05:00");
   None;
   Some (VideoUpdate "file-3" "A" 1 10 "2024-05-01T10:06:00")].

Definition is_failed_duplicate_delete (e : event) : bool :=
  match e with DeleteDuplicate _ _ _ false => true | _ => false end.

(** ** The four handlers, run one update at a time *)

(** What [setup_webhook] registers: [video_handler] for video messages
    and the three command handlers.  An invocation carries what the
    handler reads from the update and from the clock. *)
Inductive invocation :=
  | OnVideo (upd : option video_update)
  | OnReport (chat : Z) (current_time : Q)
  | OnDeleteDuplicates (chat user : Z) (current_time : Q)
  | OnStats (chat : Z).

Definition handle {World : Type} {surface : Surface World}
    {engine : Engine} (i : invocation) (st : bot_state) (w : World)
  : bot_state * World :=
  match i with
  | OnVideo upd =>
      (BotState (video_handler upd (videos st)) (report_messages st)
                (report_seq st) (last_report_usage st)
                (last_delete_usage st), w)
  | OnReport chat now => (report_command chat now st w).1
  | OnDeleteDuplicates chat user now =>
      (delete_duplicates chat user now st w).1
  | OnStats chat => (st, w)
  end.

Definition handle_all {World : Type} {surface : Surface World}
    {engine : Engine} (invs : list invocation) (st : bot_state) (w : World)
  : bot_state * World :=
  foldl (λ acc i, handle i acc.1 acc.2) (st, w) invs.

(** * Properties *)

(** ** The recorder *)

Section recorder.
Implicit Types (vs : list video_row) (r : video_row) (u : string).

Lemma rows_with_app u vs1 vs2 :
  rows_with u (vs1 ++ vs2) = rows_with u vs1 + rows_with u vs2.
Proof.
  unfold rows_with. rewrite filter_app, length_app. lia.
Qed.

Lemma rows_with_update_count n u u' vs :
  rows_with u' (update_count n u vs) = rows_with u' vs.
Proof.
  unfold rows_with, update_count. f_equal.
  induction vs as [|r vs IH]; [done|].
  rewrite fmap_cons, !filter_cons.
  destruct (decide (file_unique_id r = u)); simpl;
    repeat case_decide; simpl; congruence.
Qed.

Lemma keys_update_count n u vs :
  video_key <$> update_count n u vs = video_key <$> vs.
Proof.
  unfold update_count. rewrite <- list_fmap_compose.
  apply list_fmap_ext. intros i r _. simpl. by case_decide.
Qed.

Lemma elem_of_update_count n u vs r :
  r ∈ update_count n u vs ↔
  ∃ r0, r0 ∈ vs ∧
        r = if decide (file_unique_id r0 = u) then set_count n r0 else r0.
Proof.
  unfold update_count. rewrite list_elem_of_fmap.
  split; intros (r0 & H1 & H2); exists r0; done.
Qed.

Lemma rows_with_insert_or_ignore_ne u r vs :
  file_unique_id r ≠ u →
  rows_with u (insert_or_ignore r vs) = rows_with u vs.
Proof.
  intros Hne. unfold insert_or_ignore. case_decide; [done|].
  rewrite rows_with_app. unfold rows_with at 2.
  rewrite filter_cons, decide_False by done. simpl. lia.
Qed.

Lemma update_count_idemp n u vs :
  update_count n u (update_count n u vs) = update_count n u vs.
Proof.
  unfold update_count. rewrite <- list_fmap_compose.
  apply list_fmap_ext. intros i r _. simpl.
  destruct (decide (file_unique_id r = u)) as [Hu|Hu]; simpl.
  - by rewrite decide_True.
  - by rewrite decide_False.
Qed.

Lemma key_in_insert_or_ignore r vs :
  video_key r ∈ video_key <$> insert_or_ignore r vs.
Proof.
  unfold insert_or_ignore. case_decide; [done|].
  rewrite fmap_app. set_solver.
Qed.

Lemma pk_unique_insert_or_ignore r vs :
  pk_unique vs → pk_unique (insert_or_ignore r vs).
Proof.
  unfold pk_unique, insert_or_ignore. intros Hnd. case_decide; [done|].
  rewrite fmap_app. apply NoDup_app. split_and!; [done| |].
  - intros k Hk. simpl. rewrite list_elem_of_singleton. by intros ->.
  - simpl. apply NoDup_singleton.
Qed.

Lemma pk_unique_video_handler upd vs :
  pk_unique vs → pk_unique (video_handler upd vs).
Proof.
  destruct upd as [v|]; [|done]. simpl. intros Hnd.
  unfold pk_unique. rewrite keys_update_count.
  by apply pk_unique_insert_or_ignore.
Qed.

Lemma pk_unique_record_all upds vs :
  pk_unique vs → pk_unique (record_all upds vs).
Proof.
  revert vs. induction upds as [|u upds IH]; intros vs Hvs; [done|].
  simpl. apply IH. by apply pk_unique_video_handler.
Qed.

Lemma count_consistent_video_handler upd vs :
  count_consistent vs → count_consistent (video_handler upd vs).
Proof.
  destruct upd as [v|]; [|done]. simpl. intros Hinv r Hr.
  rewrite rows_with_update_count.
  apply elem_of_update_count in Hr as (r0 & Hr0 & ->).
  case_decide as Hu.
  - simpl. by rewrite Hu.
  - rewrite rows_with_insert_or_ignore_ne by (simpl; congruence).
    unfold insert_or_ignore in Hr0. case_decide; [by apply Hinv|].
    apply elem_of_app in Hr0 as [Hr0|Hr0]; [by apply Hinv|].
    apply list_elem_of_singleton in Hr0. subst r0. simpl in Hu. done.
Qed.

(** C2.  Starting from the empty table, after each call of any sequence
    of [video_handler] calls, the [count] column of every stored row is
    the number of stored rows with the same [file_unique_id], whatever
    chats the rows come from. *)
Theorem record_keeps_count_consistent
    (upds : list (option video_update)) (n : nat) :
  count_consistent (record_all (take n upds) []).
Proof.
  generalize (take n upds). clear upds n. intros upds.
  assert (∀ vs, count_consistent vs → count_consistent (record_all upds vs))
    as Hgen.
  { induction upds as [|u upds IH]; intros vs Hvs; [done|].
    simpl. apply IH. by apply count_consistent_video_handler. }
  apply Hgen. intros r Hr. by apply elem_of_nil in Hr.
Qed.

(** C3.  A second [video_handler] call with the same file_unique_id and
    the same message_id leaves the table as the first call left it: the
    row of that pair, its [first_seen] included, and every [count] are
    what they were. *)
Theorem record_twice_changes_nothing (v v' : video_update) vs :
  upd_unique_id v' = upd_unique_id v →
  upd_message_id v' = upd_message_id v →
  video_handler (Some v') (video_handler (Some v) vs)
  = video_handler (Some v) vs.
Proof.
  intros Hu Hm. simpl. rewrite Hu, Hm.
  set (u := upd_unique_id v).
  set (row := VideoRow u (upd_file_id v) 0 (upd_now_iso v)
                       (upd_chat_id v) (upd_message_id v)).
  set (row' := VideoRow u (upd_file_id v') 0 (upd_now_iso v')
                        (upd_chat_id v') (upd_message_id v)).
  set (vs1 := insert_or_ignore row vs).
  set (total := rows_with u vs1).
  assert (insert_or_ignore row' (update_count total u vs1)
          = update_count total u vs1) as ->.
  { unfold insert_or_ignore. rewrite decide_True; [done|].
    rewrite keys_update_count.
    change (video_key row') with (video_key row).
    apply key_in_insert_or_ignore. }
  rewrite rows_with_update_count. fold total.
  apply update_count_idemp.
Qed.

Lemma record_twice_changes_nothing_witness :
  video_handler (Some (example_update "file-2" "2024-05-01T10:00:05"))
    (video_handler (Some (example_update "file-1" "2024-05-01T10:00:00"))
                   [example_row "A" 7])
  = video_handler (Some (example_update "file-1" "2024-05-01T10:00:00"))
                  [example_row "A" 7].
Proof.
  apply (record_twice_changes_nothing
           (example_update "file-1" "2024-05-01T10:00:00")
           (example_update "file-2" "2024-05-01T10:00:05")
           [example_row "A" 7]); reflexivity.
Defined.

End recorder.

(** ** The cooldown check *)

Section cooldown.
Context {World : Type} {surface : Surface World} {engine : Engine}.
Implicit Types (usage : gmap Z Q) (st : bot_state) (w : World).

Lemma py_int_floor (q : Q) : (0 <= q)%Q → py_int q = Qfloor q.
Proof.
  destruct q as [a b]. unfold Qle, py_int, Qfloor. simpl. intros Ha.
  apply Z.quot_div_nonneg; lia.
Qed.

Lemma rate_limit_never_run cooldown usage chat now :
  usage !! chat = None →
  rate_limit cooldown usage chat now = Allowed (<[chat := now]> usage).
Proof. unfold rate_limit. by intros ->. Qed.

Lemma rate_limit_denied cooldown usage chat t0 now :
  usage !! chat = Some t0 →
  (now - t0 < inject_Z cooldown)%Q →
  rate_limit cooldown usage chat now
  = Denied (py_int (inject_Z cooldown - (now - t0))).
Proof.
  unfold rate_limit. intros -> Hlt.
  destruct (Qlt_le_dec _ _) as [_|Hle]; [done|].
  exfalso. by apply (Qlt_not_le _ _ Hlt).
Qed.

Lemma rate_limit_allowed cooldown usage chat t0 now :
  usage !! chat = Some t0 →
  (inject_Z cooldown <= now - t0)%Q →
  rate_limit cooldown usage chat now = Allowed (<[chat := now]> usage).
Proof.
  unfold rate_limit. intros -> Hle.
  destruct (Qlt_le_dec _ _) as [Hlt|_]; [|done].
  exfalso. by apply (Qlt_not_le _ _ Hlt).
Qed.

Lemma remaining_is_floor cooldown t0 now :
  (now - t0 < inject_Z cooldown)%Q →
  py_int (inject_Z cooldown - (now - t0))
  = Qfloor (inject_Z cooldown - (now - t0)).
Proof.
  intros Hlt. apply py_int_floor.
  apply Qlt_le_weak. by apply (Qlt_minus_iff (now - t0) (inject_Z cooldown)).
Qed.

(** A denied command leaves the state alone and starts with the wait
    notice. *)
Lemma run_command_denied f chat user now st w remaining :
  rate_limit (window f) (usage_of f st) chat now = Denied remaining →
  (run_command f chat user now st w).1.1 = st ∧
  (∃ res, head (run_command f chat user now st w).2
          = Some (Reply chat (wait_notice f remaining) res)) ∧
  Forall (λ e, is_reply e = true) (run_command f chat user now st w).2.
Proof.
  intros Hgate. destruct f; simpl in *.
  - unfold report_command. rewrite Hgate.
    destruct (reply_text chat (WaitReport remaining) w) as [[m|] w1];
      simpl; [split_and!; eauto; repeat constructor|].
    unfold report_failed. destruct (reply_text chat ReportFailed w1).
    simpl. split_and!; eauto; repeat constructor.
  - unfold delete_duplicates. rewrite Hgate.
    destruct (reply_text chat (WaitDelete remaining) w) as [[m|] w1];
      simpl; [split_and!; eauto; repeat constructor|].
    unfold delete_failed. destruct (reply_text chat DeleteFailed w1).
    simpl. split_and!; eauto; repeat constructor.
Qed.

Lemma cleanup_unfold chat st w :
  ∃ n1 w1 tr1 dels n2 w2 tr2 tail,
    delete_report_loop chat
      (select_report_messages chat (report_messages st)) w
    = (n1, w1, tr1) ∧
    delete_duplicate_loop (select_duplicates (videos st)) None w1
    = (dels, n2, w2, tr2) ∧
    (cleanup chat st w).1.1
    = BotState (delete_videos dels (videos st))
               (clear_report_messages chat (report_messages st))
               (report_seq st) (last_report_usage st)
               (last_delete_usage st) ∧
    (cleanup chat st w).2 = tr1 ++ tr2 ++ tail ∧
    Forall (λ e, is_delete e = false) tail.
Proof.
  unfold cleanup.
  destruct (delete_report_loop _ _ _) as [[n1 w1] tr1] eqn:Hrep.
  destruct (delete_duplicate_loop _ _ _) as [[[dels n2] w2] tr2] eqn:Hdup.
  assert (match dels with
          | [] => videos st
          | _ :: _ => delete_videos dels (videos st)
          end = delete_videos dels (videos st)) as -> by by destruct dels.
  destruct (reply_text chat _ w2) as [[m|] w3]; simpl.
  - exists n1, w1, tr1, dels, n2, w2, tr2,
      [LogDeleteCompleted (n1 + n2) n1 n2 chat;
       Reply chat (DeletedSummary (n1 + n2) n1 n2) (Some m)].
    split_and!; try done. repeat constructor.
  - unfold delete_failed.
    destruct (reply_text chat DeleteFailed w3) as [res w4]. simpl.
    exists n1, w1, tr1, dels, n2, w2, tr2,
      [LogDeleteCompleted (n1 + n2) n1 n2 chat;
       Reply chat (DeletedSummary (n1 + n2) n1 n2) None;
       Reply chat DeleteFailed res].
    split_and!; try done.
    + by rewrite <- !app_assoc.
    + repeat constructor.
Qed.

Lemma delete_duplicates_runs_cleanup chat user now st w usage status w1 :
  rate_limit DELETE_COOLDOWN (last_delete_usage st) chat now
  = Allowed usage →
  get_member chat user w = (Some status, w1) →
  is_admin status = true →
  (delete_duplicates chat user now st w).1.1
  = (cleanup chat
       (BotState (videos st) (report_messages st) (report_seq st)
                 (last_report_usage st) usage) w1).1.1 ∧
  (delete_duplicates chat user now st w).2
  = GetMember chat user (Some status)
      :: (cleanup chat
            (BotState (videos st) (report_messages st) (report_seq st)
                      (last_report_usage st) usage) w1).2.
Proof.
  intros Hgate Hmem Hadm. unfold delete_duplicates.
  rewrite Hgate, Hmem, Hadm. by destruct (cleanup _ _ _) as [[??]?].
Qed.

(** The ways through [delete_duplicates]: either nothing is deleted and
    the two tables stay as they are, or the cooldown and the admin check
    let the command through and [cleanup] runs. *)
Lemma delete_duplicates_cases chat user now st w :
  ((videos (delete_duplicates chat user now st w).1.1 = videos st ∧
    report_messages (delete_duplicates chat user now st w).1.1
    = report_messages st ∧
    Forall (λ e, is_delete e = false)
           (delete_duplicates chat user now st w).2)) ∨
  (∃ usage status w1,
     rate_limit DELETE_COOLDOWN (last_delete_usage st) chat now
     = Allowed usage ∧
     get_member chat user w = (Some status, w1) ∧
     is_admin status = true ∧
     let st1 := BotState (videos st) (report_messages st) (report_seq st)
                         (last_report_usage st) usage in
     (delete_duplicates chat user now st w).1.1 = (cleanup chat st1 w1).1.1 ∧
     (delete_duplicates chat user now st w).2
     = GetMember chat user (Some status) :: (cleanup chat st1 w1).2).
Proof.
  unfold delete_duplicates, could_not_verify, delete_failed.
  destruct (rate_limit _ _ _ _) as [usage|remaining].
  - destruct (get_member chat user w) as [[status|] w1].
    + destruct (is_admin status) eqn:Hadm.
      * right. exists usage, status, w1. split_and!; try done;
          by destruct (cleanup _ _ _) as [[??]?].
      * left. repeat (destruct (reply_text _ _ _) as [[?|] ?]; simpl);
          split_and!; try done; repeat constructor.
    + left. repeat (destruct (reply_text _ _ _) as [[?|] ?]; simpl);
        split_and!; try done; repeat constructor.
  - left. repeat (destruct (reply_text _ _ _) as [[?|] ?]; simpl);
      split_and!; try done; repeat constructor.
Qed.

(** A command that passes the check records the invocation time and does
    not start with the wait notice. *)
Lemma run_command_allowed f chat user now st w usage :
  rate_limit (window f) (usage_of f st) chat now = Allowed usage →
  usage_of f (run_command f chat user now st w).1.1 = usage ∧
  ∀ n res, head (run_command f chat user now st w).2
           ≠ Some (Reply chat (wait_notice f n) res).
Proof.
  intros Hgate. destruct f; simpl in *.
  - unfold report_command, report_failed. rewrite Hgate. simpl.
    destruct (select_repeated (videos st)) as [|t repeated].
    + repeat (destruct (reply_text _ _ _) as [[?|] ?]; simpl); done.
    + cbn beta iota. generalize (take MAX_REPORT_VIDEOS (t :: repeated)).
      intros items.
      destruct (reply_text chat _ w) as [[hid|] w1].
      * destruct (report_loop _ _ items _) as [[[arts sent] w2] tr].
        destruct (insert_report_messages _ _) as [rows seq']. done.
      * destruct (reply_text _ _ _) as [? ?]; done.
  - unfold delete_duplicates, could_not_verify, delete_failed.
    rewrite Hgate.
    destruct (get_member chat user w) as [[status|] w1].
    + destruct (is_admin status).
      * destruct (cleanup_unfold chat
                    (BotState (videos st) (report_messages st)
                       (report_seq st) (last_report_usage st) usage) w1)
          as (?&?&?&?&?&?&?&?&_&_&Hst&_&_).
        destruct (cleanup _ _ _) as [[st2 w2] tr]. simpl in *.
        by rewrite Hst.
      * repeat (destruct (reply_text _ _ _) as [[?|] ?]; simpl); done.
    + repeat (destruct (reply_text _ _ _) as [[?|] ?]; simpl); done.
Qed.

(** C6, as the code has it.  For either command family and any chat
    whose last recorded invocation was at [t0]: an invocation at a later
    time [now] less than the window after [t0] changes nothing in the
    state, so the recorded time stays [t0], and answers with the wait
    notice, whose number of seconds is the remaining time rounded down
    to a whole number; an invocation at or after [t0] plus the window
    goes through and records [now]. *)
Theorem cooldown_denies_inside_window_allows_after
    (f : family) (chat user : Z) (t0 now : Q) st w :
  usage_of f st !! chat = Some t0 →
  (t0 < now)%Q →
  ((now - t0 < inject_Z (window f))%Q →
     (run_command f chat user now st w).1.1 = st ∧
     ∃ res, head (run_command f chat user now st w).2
            = Some (Reply chat
                      (wait_notice f
                         (Qfloor (inject_Z (window f) - (now - t0))))
                      res)) ∧
  ((inject_Z (window f) <= now - t0)%Q →
     usage_of f (run_command f chat user now st w).1.1 !! chat = Some now ∧
     ∀ n res, head (run_command f chat user now st w).2
              ≠ Some (Reply chat (wait_notice f n) res)).
Proof.
  intros Hlast _. split.
  - intros Hlt. rewrite <- remaining_is_floor by done.
    destruct (run_command_denied f chat user now st w
                (py_int (inject_Z (window f) - (now - t0))))
      as (Hst & Hhd & _); [by apply rate_limit_denied|done].
  - intros Hle.
    destruct (run_command_allowed f chat user now st w
                (<[chat := now]> (usage_of f st))) as [Hu Hhd].
    { by apply (rate_limit_allowed _ _ _ t0). }
    split; [|done]. rewrite Hu. apply lookup_insert_eq.
Qed.

Lemma rate_limit_allowed_inv cooldown usage chat now usage' :
  rate_limit cooldown usage chat now = Allowed usage' →
  usage' = <[chat := now]> usage.
Proof.
  unfold rate_limit. destruct (usage !! chat); [|congruence].
  destruct (Qlt_le_dec _ _); congruence.
Qed.

(** C10.  When [delete_duplicates] passes the cooldown check and the
    requester then turns out not to be an administrator, or cannot be
    looked up, nothing is deleted and yet the invocation time is
    recorded for the chat; a second invocation for that chat less than
    the window later, by whatever user, is answered with the wait notice
    and does nothing else. *)
Theorem refused_delete_still_arms_cooldown
    (chat user user' : Z) (t1 t2 : Q) st w w' usage :
  rate_limit DELETE_COOLDOWN (last_delete_usage st) chat t1
  = Allowed usage →
  (∀ status, (get_member chat user w).1 = Some status →
             is_admin status = false) →
  (t2 - t1 < inject_Z DELETE_COOLDOWN)%Q →
  (videos (delete_duplicates chat user t1 st w).1.1 = videos st ∧
   report_messages (delete_duplicates chat user t1 st w).1.1
   = report_messages st ∧
   Forall (λ e, is_delete e = false)
          (delete_duplicates chat user t1 st w).2) ∧
  last_delete_usage (delete_duplicates chat user t1 st w).1.1 !! chat
  = Some t1 ∧
  (delete_duplicates chat user' t2
     (delete_duplicates chat user t1 st w).1.1 w').1.1
  = (delete_duplicates chat user t1 st w).1.1 ∧
  (∃ res,
     head (delete_duplicates chat user' t2
             (delete_duplicates chat user t1 st w).1.1 w').2
     = Some (Reply chat
               (WaitDelete
                  (py_int (inject_Z DELETE_COOLDOWN - (t2 - t1))))
               res)) ∧
  Forall (λ e, is_reply e = true)
         (delete_duplicates chat user' t2
            (delete_duplicates chat user t1 st w).1.1 w').2.
Proof.
  intros Hgate Hnot Hlt.
  assert (last_delete_usage (delete_duplicates chat user t1 st w).1.1
            !! chat = Some t1) as Harmed.
  { destruct (run_command_allowed DeleteFamily chat user t1 st w usage
                Hgate) as [Hu _]. simpl in Hu. rewrite Hu.
    rewrite (rate_limit_allowed_inv _ _ _ _ _ Hgate).
    apply lookup_insert_eq. }
  split; [|split; [done|]].
  - destruct (delete_duplicates_cases chat user t1 st w)
      as [Hsame|(usage0 & status & w1 & _ & Hmem & Hadm & _)]; [done|].
    specialize (Hnot status). rewrite Hmem in Hnot.
    rewrite Hnot in Hadm; done.
  - apply (run_command_denied DeleteFamily chat user' t2 _ w').
    simpl. by apply rate_limit_denied.
Qed.

End cooldown.

(** The witness of C6, on the example surface: armed at 1000, asked again
    half a second later. *)
Lemma cooldown_denies_inside_window_allows_after_witness :
  (((1000 + (1 # 2)) - 1000 < inject_Z (window ReportFamily))%Q →
     (run_command (engine := sqlite_engine) ReportFamily 5 1 (1000 + (1 # 2))
        (armed_state 1000) 100).1.1 = armed_state 1000 ∧
     ∃ res, head (run_command (engine := sqlite_engine) ReportFamily 5 1
                    (1000 + (1 # 2)) (armed_state 1000) 100).2
            = Some (Reply 5
                      (wait_notice ReportFamily
                         (Qfloor (inject_Z (window ReportFamily)
                                  - ((1000 + (1 # 2)) - 1000))))
                      res)) ∧
  ((inject_Z (window ReportFamily) <= (1000 + (1 # 2)) - 1000)%Q →
     usage_of ReportFamily
       (run_command (engine := sqlite_engine) ReportFamily 5 1 (1000 + (1 # 2))
          (armed_state 1000) 100).1.1 !! 5 = Some (1000 + (1 # 2))%Q ∧
     ∀ n res, head (run_command (engine := sqlite_engine) ReportFamily 5 1
                      (1000 + (1 # 2)) (armed_state 1000) 100).2
              ≠ Some (Reply 5 (wait_notice ReportFamily n) res)).
Proof.
  apply (cooldown_denies_inside_window_allows_after
           (engine := sqlite_engine) ReportFamily 5 1 1000 (1000 + (1 # 2))
           (armed_state 1000) 100).
  - vm_compute. reflexivity.
  - vm_compute. reflexivity.
Defined.

(** C6 as stated fails: with the report window of 30 seconds, armed at
    1000 and asked again at 1000.5, the notice says 29 seconds, while the
    remaining 29.5 seconds rounded up are 30. *)
Lemma cooldown_remaining_is_not_rounded_up :
  (1000 < 1000 + (1 # 2))%Q ∧
  ((1000 + (1 # 2)) - 1000 < inject_Z (window ReportFamily))%Q ∧
  Qceiling (inject_Z (window ReportFamily) - ((1000 + (1 # 2)) - 1000)) = 30 ∧
  head (run_command (engine := sqlite_engine) ReportFamily 5 1 (1000 + (1 # 2))
          (armed_state 1000) 100).2
  = Some (Reply 5 (WaitReport 29) (Some 100)) ∧
  ¬ ∃ res,
      head (run_command (engine := sqlite_engine) ReportFamily 5 1
              (1000 + (1 # 2)) (armed_state 1000) 100).2
      = Some (Reply 5
                (wait_notice ReportFamily
                   (Qceiling (inject_Z (window ReportFamily)
                              - ((1000 + (1 # 2)) - 1000))))
                res).
Proof.
  split_and!; try (vm_compute; reflexivity).
  intros [res Hres]. vm_compute in Hres. discriminate Hres.
Qed.

(** The witness of C10: user 2 is a plain member of chat 5. *)
Lemma refused_delete_still_arms_cooldown_witness :
  last_delete_usage
    (delete_duplicates 5 2 1000
       (empty_state two_tied_sets) 100).1.1 !! 5 = Some 1000%Q ∧
  ∃ res,
    head (delete_duplicates 5 1 (1000 + 59)
            (delete_duplicates 5 2 1000
               (empty_state two_tied_sets) 100).1.1 200).2
    = Some (Reply 5
              (WaitDelete
                 (py_int (inject_Z DELETE_COOLDOWN - ((1000 + 59) - 1000))))
              res).
Proof.
  destruct (refused_delete_still_arms_cooldown
              (engine := sqlite_engine) 5 2 1 1000 (1000 + 59)
              (empty_state two_tied_sets) 100 200 (<[5 := 1000%Q]> ∅))
    as (_ & Harm & _ & Hwait & _).
  - vm_compute. reflexivity.
  - intros status Hs. vm_compute in Hs.
    injection Hs as <-. vm_compute. reflexivity.
  - vm_compute. reflexivity.
  - split; [exact Harm | exact Hwait].
Defined.

(** ** The duplicates query and the deletion loop *)

#[global] Instance key_le_trans : Transitive key_le.
Proof.
  intros a b c [Hab1 Hab2] [Hbc1 Hbc2]. split; [by etrans|].
  intros Hac. rewrite Hac in Hab1.
  assert (file_unique_id b = file_unique_id c) as Hbc
    by by apply (anti_symm String.le).
  specialize (Hbc2 Hbc). rewrite <- Hbc in Hac. specialize (Hab2 Hac). lia.
Qed.

#[global] Instance key_le_total : Total key_le.
Proof.
  intros a b. unfold key_le.
  destruct (decide (file_unique_id a = file_unique_id b)) as [Heq|Hne].
  - rewrite Heq. destruct (Z.le_ge_cases (message_id a) (message_id b));
      [left|right]; split; done || lia.
  - destruct (total String.le (file_unique_id a) (file_unique_id b));
      [left|right]; split; done || congruence.
Qed.

Section deletion.
Context {World : Type} {surface : Surface World}.
Implicit Types (vs : list video_row) (r : video_row) (w : World).

Lemma pk_unique_inj vs r r' :
  pk_unique vs → r ∈ vs → r' ∈ vs → video_key r = video_key r' → r = r'.
Proof.
  unfold pk_unique. induction vs as [|x vs IH]; intros Hnd Hr Hr' Hk.
  { by apply elem_of_nil in Hr. }
  rewrite fmap_cons in Hnd. apply NoDup_cons in Hnd as [Hx Hnd].
  apply elem_of_cons in Hr as [->|Hr]; apply elem_of_cons in Hr' as [->|Hr'].
  - done.
  - exfalso. apply Hx. rewrite Hk. by apply list_elem_of_fmap_2.
  - exfalso. apply Hx. rewrite <- Hk. by apply list_elem_of_fmap_2.
  - by apply IH.
Qed.

Lemma duplicate_rows_sorted vs : StronglySorted key_le (duplicate_rows vs).
Proof. apply StronglySorted_merge_sort; apply _. Qed.

Lemma duplicate_rows_elem vs r :
  r ∈ duplicate_rows vs ↔ r ∈ vs ∧ 1 < rows_with (file_unique_id r) vs.
Proof.
  unfold duplicate_rows. rewrite merge_sort_Permutation.
  by rewrite list_elem_of_filter, (comm and).
Qed.

Lemma duplicate_rows_pk vs : pk_unique vs → pk_unique (duplicate_rows vs).
Proof.
  unfold pk_unique, duplicate_rows. intros Hnd.
  rewrite merge_sort_Permutation.
  eapply sublist_NoDup; [exact Hnd|].
  apply fmap_sublist, sublist_filter.
Qed.

(** Whatever the loop tries to delete either is the first row handed to
    it, with [last_unique] already at its key, or comes right after a
    row of the same key. *)
Lemma targeted_follows_same_key rows last_unique w u m c ok :
  DeleteDuplicate u m c ok ∈ (delete_duplicate_loop rows last_unique w).2 →
  ∃ pre post,
    rows = pre ++ (u, m, c) :: post ∧
    match last pre with
    | Some p => p.1.1 = u
    | None => last_unique = Some u
    end.
Proof.
  revert last_unique w.
  induction rows as [|[[u0 m0] c0] rest IH]; intros last_unique w Hin.
  { by apply elem_of_nil in Hin. }
  simpl in Hin. destruct (decide (Some u0 ≠ last_unique)) as [Hne|Heq].
  - destruct (IH _ _ Hin) as (pre & post & -> & Hlast).
    exists ((u0, m0, c0) :: pre), post. split; [done|].
    destruct pre as [|p pre]; [simpl in *; congruence|].
    rewrite last_cons_cons.
    destruct (last (p :: pre)) eqn:Hp; [done|by apply last_None in Hp].
  - apply dec_stable in Heq.
    destruct (delete_message c0 m0 w) as [ok0 w1].
    destruct (delete_duplicate_loop rest last_unique w1)
      as [[[dels n] w2] tr] eqn:Hloop.
    simpl in Hin. apply elem_of_cons in Hin as [Hhd|Hin].
    + injection Hhd as -> -> -> ->. exists [], rest. split; done.
    + assert (DeleteDuplicate u m c ok
                ∈ (delete_duplicate_loop rest last_unique w1).2) as Hin'
        by by rewrite Hloop.
      destruct (IH _ _ Hin') as (pre & post & -> & Hlast).
      exists ((u0, m0, c0) :: pre), post. split; [done|].
      destruct pre as [|p pre]; [simpl in *; congruence|].
      rewrite last_cons_cons.
      destruct (last (p :: pre)) eqn:Hp; [done|by apply last_None in Hp].
Qed.

(** What the loop leaves in [videos_to_delete], in terms of the trace. *)
Lemma videos_to_delete_spec rows last_unique w u m :
  (u, m) ∈ (delete_duplicate_loop rows last_unique w).1.1.1 ↔
  ∃ c, DeleteDuplicate u m c true
         ∈ (delete_duplicate_loop rows last_unique w).2.
Proof.
  revert last_unique w.
  induction rows as [|[[u0 m0] c0] rest IH]; intros last_unique w; simpl.
  { split; [by intros ?%elem_of_nil|by intros [? ?%elem_of_nil]]. }
  destruct (decide (Some u0 ≠ last_unique)) as [Hne|Heq]; [apply IH|].
  specialize (IH last_unique).
  destruct (delete_message c0 m0 w) as [ok0 w1]. specialize (IH w1).
  destruct (delete_duplicate_loop rest last_unique w1)
    as [[[dels n] w2] tr]. simpl in *.
  destruct ok0.
  - rewrite elem_of_cons, IH. split.
    + intros [[= -> ->]|[c Hc]]; [exists c0; left|exists c; right]; done.
    + intros [c [[= -> -> ->]|Hc]%elem_of_cons]; [by left|right; eauto].
  - rewrite IH. split.
    + intros [c Hc]. exists c. by right.
    + intros [c [[=]|Hc]%elem_of_cons]. eauto.
Qed.

Lemma targeted_in_rows rows last_unique w u m c ok :
  DeleteDuplicate u m c ok ∈ (delete_duplicate_loop rows last_unique w).2 →
  (u, m, c) ∈ rows.
Proof.
  intros Hin.
  destruct (targeted_follows_same_key _ _ _ _ _ _ _ Hin)
    as (pre & post & -> & _).
  apply elem_of_app. right. by left.
Qed.

Lemma duplicate_loop_only_deletes rows last_unique w e :
  e ∈ (delete_duplicate_loop rows last_unique w).2 →
  ∃ u m c ok, e = DeleteDuplicate u m c ok.
Proof.
  revert last_unique w.
  induction rows as [|[[u0 m0] c0] rest IH]; intros last_unique w; simpl.
  { by intros ?%elem_of_nil. }
  destruct (decide (Some u0 ≠ last_unique)) as [Hne|Heq]; [apply IH|].
  specialize (IH last_unique).
  destruct (delete_message c0 m0 w) as [ok0 w1]. specialize (IH w1).
  destruct (delete_duplicate_loop rest last_unique w1)
    as [[[dels cnt] w2] tr]. simpl in *.
  intros [->|Hin]%elem_of_cons; eauto.
Qed.

Lemma report_loop_only_deletes_reports chat mids w e :
  e ∈ (delete_report_loop chat mids w).2 →
  ∃ m ok, e = DeleteReportMessage chat m ok.
Proof.
  revert w. induction mids as [|m0 rest IH]; intros w; simpl.
  { by intros ?%elem_of_nil. }
  destruct (delete_message chat m0 w) as [ok0 w1]. specialize (IH w1).
  destruct (delete_report_loop chat rest w1) as [[cnt w2] tr]. simpl in *.
  intros [->|Hin]%elem_of_cons; eauto.
Qed.

Lemma elem_of_delete_videos keys vs r :
  r ∈ delete_videos keys vs ↔ r ∈ vs ∧ video_key r ∉ keys.
Proof.
  unfold delete_videos. revert vs.
  induction keys as [|k keys IH]; intros vs; simpl.
  { split; [intros ?; split; [done|by intros ?%elem_of_nil]|by intros [??]]. }
  rewrite IH, list_elem_of_filter, not_elem_of_cons. tauto.
Qed.

Lemma clear_report_messages_none chat (rs : list report_row) :
  filter (λ x, report_chat_id x = chat) (clear_report_messages chat rs)
  = [].
Proof.
  unfold clear_report_messages. induction rs as [|x l IH]; [done|].
  rewrite (filter_cons (λ x, report_chat_id x ≠ chat)).
  destruct (decide (report_chat_id x ≠ chat)) as [Hne|_]; [|exact IH].
  rewrite filter_cons.
  destruct (decide (report_chat_id x = chat)); [done|exact IH].
Qed.

Lemma cleanup_effect chat st w :
  ∃ w1,
    videos (cleanup chat st w).1.1
    = delete_videos
        (delete_duplicate_loop (select_duplicates (videos st)) None w1)
          .1.1.1
        (videos st) ∧
    report_messages (cleanup chat st w).1.1
    = clear_report_messages chat (report_messages st) ∧
    ∀ u m c ok,
      DeleteDuplicate u m c ok ∈ (cleanup chat st w).2 ↔
      DeleteDuplicate u m c ok
        ∈ (delete_duplicate_loop (select_duplicates (videos st)) None w1).2.
Proof.
  destruct (cleanup_unfold chat st w)
    as (n1 & w1 & tr1 & dels & n2 & w2 & tr2 & tail
        & Hrep & Hdup & Hst & Htr & Htail).
  exists w1. rewrite Hst, Htr, Hdup. simpl. split_and!; try done.
  intros u m c ok. rewrite !elem_of_app. split; [|intros ?; right; by left].
  intros [Hin|[Hin|Hin]]; [|done|].
  - assert (DeleteDuplicate u m c ok
              ∈ (delete_report_loop chat
                   (select_report_messages chat (report_messages st)) w).2)
      as Hin' by by rewrite Hrep.
    apply report_loop_only_deletes_reports in Hin' as (? & ? & [=]).
  - rewrite Forall_forall in Htail. by apply Htail in Hin.
Qed.

(** What [delete_duplicates] does to [videos], whichever way it takes:
    nothing, or what the duplicates loop of [cleanup] decides. *)
Lemma delete_duplicates_effect chat user now st w :
  (videos (delete_duplicates chat user now st w).1.1 = videos st ∧
   ∀ u m c ok,
     DeleteDuplicate u m c ok ∉ (delete_duplicates chat user now st w).2) ∨
  (∃ w1,
     videos (delete_duplicates chat user now st w).1.1
     = delete_videos
         (delete_duplicate_loop (select_duplicates (videos st)) None w1)
           .1.1.1
         (videos st) ∧
     ∀ u m c ok,
       DeleteDuplicate u m c ok ∈ (delete_duplicates chat user now st w).2 ↔
       DeleteDuplicate u m c ok
         ∈ (delete_duplicate_loop (select_duplicates (videos st)) None w1)
             .2).
Proof.
  destruct (delete_duplicates_cases chat user now st w)
    as [(Hv & _ & Htr)|(usage & status & w1 & _ & _ & _ & Hst & Htr)].
  - left. split; [done|]. intros u m c ok Hin.
    rewrite Forall_forall in Htr. by apply Htr in Hin.
  - right. simpl in Hst, Htr.
    destruct (cleanup_effect chat
                (BotState (videos st) (report_messages st) (report_seq st)
                          (last_report_usage st) usage) w1)
      as (w2 & Hv & _ & Hev).
    exists w2. rewrite Hst, Htr. split; [done|].
    intros u m c ok. rewrite elem_of_cons, <- Hev. simpl.
    split; [by intros [[=]|?]|by right].
Qed.

(** A row the duplicates loop tries to delete has a stored row of the
    same key with a smaller [message_id]. *)
Lemma targeted_has_earlier vs w u m c ok :
  pk_unique vs →
  DeleteDuplicate u m c ok
    ∈ (delete_duplicate_loop (select_duplicates vs) None w).2 →
  ∃ rp, rp ∈ vs ∧ file_unique_id rp = u ∧ message_id rp < m.
Proof.
  intros Hpk Hin.
  destruct (targeted_follows_same_key _ _ _ _ _ _ _ Hin)
    as (pre & post & Hrows & Hlast).
  destruct (last pre) as [p|] eqn:Hp; [|done].
  apply last_Some in Hp as [pre' ->].
  unfold select_duplicates in Hrows.
  apply fmap_app_inv in Hrows as (l1 & l2 & H1 & H2 & Hsorted).
  symmetry in H1. apply fmap_app_inv in H1 as (l1a & l1b & _ & H1b & ->).
  symmetry in H1b.
  apply fmap_cons_inv in H1b as (rp & l' & Hrp & Hnil & ->).
  symmetry in Hnil. apply fmap_nil_inv in Hnil as ->.
  symmetry in H2. apply fmap_cons_inv in H2 as (r' & l2' & Hr' & _ & ->).
  injection Hr' as Hu Hm Hc.
  assert (key_le rp r') as [_ Hle].
  { apply (StronglySorted_app_1_elem_of key_le (l1a ++ [rp]) (r' :: l2')).
    - rewrite <- Hsorted. apply duplicate_rows_sorted.
    - apply elem_of_app. right. by left.
    - by left. }
  assert (file_unique_id rp = u) as Hrpu by by rewrite Hrp in Hlast.
  assert (video_key rp ≠ video_key r') as Hkey.
  { pose proof (duplicate_rows_pk vs Hpk) as Hnd. unfold pk_unique in Hnd.
    rewrite Hsorted, fmap_app in Hnd.
    apply NoDup_app in Hnd as (_ & Hdisj & _).
    intros Heq. apply (Hdisj (video_key rp)).
    - apply list_elem_of_fmap_2, elem_of_app. right. by left.
    - rewrite Heq. rewrite fmap_cons. by left. }
  exists rp. split_and!; [|done|].
  - apply (duplicate_rows_elem vs rp). rewrite Hsorted.
    apply elem_of_app. left. apply elem_of_app. right. by left.
  - unfold video_key in Hkey.
    assert (message_id rp ≤ message_id r') by (apply Hle; congruence).
    assert (message_id rp ≠ message_id r') by congruence.
    lia.
Qed.

Lemma least_message_exists (l : list video_row) :
  l ≠ [] → ∃ x, x ∈ l ∧ ∀ y, y ∈ l → message_id x ≤ message_id y.
Proof.
  induction l as [|a l IH]; [done|]. intros _.
  destruct l as [|b l].
  { exists a. split; [by left|]. intros y ->%list_elem_of_singleton. lia. }
  destruct IH as (x & Hx & Hmin); [done|].
  destruct (decide (message_id a ≤ message_id x)).
  - exists a. split; [by left|].
    intros y [->|Hy]%elem_of_cons; [lia|]. specialize (Hmin y Hy). lia.
  - exists x. split; [by right|].
    intros y [->|Hy]%elem_of_cons; [lia|]. by apply Hmin.
Qed.

Lemma kept_exists vs r :
  r ∈ vs → ∃ k, kept vs k ∧ file_unique_id k = file_unique_id r.
Proof.
  intros Hr.
  destruct (least_message_exists
              (filter (λ x, file_unique_id x = file_unique_id r) vs))
    as (k & Hk & Hmin).
  { intros Hnil.
    assert (r ∈ filter (λ x, file_unique_id x = file_unique_id r) vs) as Hin
      by by apply list_elem_of_filter.
    rewrite Hnil in Hin. by apply elem_of_nil in Hin. }
  apply list_elem_of_filter in Hk as [Hku Hk].
  exists k. split; [|done]. split; [done|].
  intros r' Hr' Hu. apply Hmin, list_elem_of_filter. split; congruence.
Qed.

(** C1.  In any state whose [videos] table respects its primary key, and
    for any run of [delete_duplicates], whatever the messaging surface
    answers: the kept occurrence of a key, the stored row with the least
    message_id among those of its file_unique_id, is never handed to
    [delete_message] by the duplicates loop and is still stored
    afterwards; so every key stored before the run still has a stored
    row after it. *)
Theorem kept_occurrence_is_never_deleted
    (chat user : Z) (now : Q) (st : bot_state) w :
  pk_unique (videos st) →
  (∀ r, kept (videos st) r →
     (∀ c ok, DeleteDuplicate (file_unique_id r) (message_id r) c ok
                ∉ (delete_duplicates chat user now st w).2) ∧
     r ∈ videos (delete_duplicates chat user now st w).1.1) ∧
  (∀ r, r ∈ videos st →
     ∃ r', r' ∈ videos (delete_duplicates chat user now st w).1.1 ∧
           file_unique_id r' = file_unique_id r).
Proof.
  intros Hpk.
  assert (∀ r, kept (videos st) r →
     (∀ c ok, DeleteDuplicate (file_unique_id r) (message_id r) c ok
                ∉ (delete_duplicates chat user now st w).2) ∧
     r ∈ videos (delete_duplicates chat user now st w).1.1) as Hkept.
  { intros r [Hr Hmin].
    destruct (delete_duplicates_effect chat user now st w)
      as [[Hv Hno]|(w1 & Hv & Hev)].
    - rewrite Hv. split; [|done]. intros c ok. apply Hno.
    - assert (∀ c ok,
                DeleteDuplicate (file_unique_id r) (message_id r) c ok
                ∉ (delete_duplicate_loop (select_duplicates (videos st))
                                         None w1).2) as Hnot.
      { intros c ok Hin.
        apply targeted_has_earlier in Hin as (rp & Hrp & Hu & Hlt); [|done].
        specialize (Hmin rp Hrp Hu). lia. }
      split.
      + intros c ok Hin. apply Hev in Hin. by apply Hnot in Hin.
      + rewrite Hv. apply elem_of_delete_videos. split; [done|].
        intros Hin. apply videos_to_delete_spec in Hin as [c Hin].
        by apply Hnot in Hin. }
  split; [done|].
  intros r Hr. destruct (kept_exists _ _ Hr) as (k & Hk & Hu).
  exists k. split; [|done]. by apply Hkept.
Qed.

(** The primary key constraint survives [delete_duplicates], as it
    survives [video_handler]: it holds in every state the handlers reach
    from the empty table. *)
Lemma pk_unique_delete_duplicates
    (chat user : Z) (now : Q) (st : bot_state) w :
  pk_unique (videos st) →
  pk_unique (videos (delete_duplicates chat user now st w).1.1).
Proof.
  intros Hpk.
  destruct (delete_duplicates_effect chat user now st w)
    as [[-> _]|(w1 & -> & _)]; [done|].
  unfold pk_unique in *. eapply sublist_NoDup; [exact Hpk|].
  apply fmap_sublist. unfold delete_videos.
  generalize ((delete_duplicate_loop (select_duplicates (videos st))
                                     None w1).1.1.1).
  intros keys. generalize (videos st). intros vs.
  revert vs. induction keys as [|k keys IH]; intros vs; [done|].
  simpl. etrans; [apply IH|]. apply sublist_filter.
Qed.

(** Kept occurrences at the level of message locations: when no two
    stored rows sit at the same (chat_id, message_id), [delete_message] is
    never called by the duplicates loop on the location of a kept
    occurrence. *)
Lemma kept_location_is_never_called
    (chat user : Z) (now : Q) (st : bot_state) w r u ok :
  pk_unique (videos st) →
  NoDup ((λ x, (chat_id x, message_id x)) <$> videos st) →
  kept (videos st) r →
  DeleteDuplicate u (message_id r) (chat_id r) ok
    ∉ (delete_duplicates chat user now st w).2.
Proof.
  intros Hpk Hloc [Hr Hmin] Hin.
  destruct (delete_duplicates_effect chat user now st w)
    as [[_ Hno]|(w1 & _ & Hev)]; [by apply Hno in Hin|].
  apply Hev in Hin.
  pose proof (targeted_in_rows _ _ _ _ _ _ _ Hin) as Hrow.
  unfold select_duplicates in Hrow.
  apply list_elem_of_fmap in Hrow as (r' & Heq & Hr').
  apply duplicate_rows_elem in Hr' as [Hr' _].
  injection Heq as Hu Hm Hc.
  assert (r' = r) as ->.
  { clear Hin Hev. revert Hloc Hr Hr' Hm Hc.
    generalize (videos st). intros vs.
    induction vs as [|x vs IH]; intros Hnd Hx Hx' Hm Hc.
    { by apply elem_of_nil in Hx. }
    rewrite fmap_cons in Hnd. apply NoDup_cons in Hnd as [Hnin Hnd].
    apply elem_of_cons in Hx as [->|Hx];
      apply elem_of_cons in Hx' as [->|Hx']; [done| | |by apply IH].
    - exfalso. apply Hnin.
      apply (list_elem_of_fmap_2' _ _ r'); [done|]. by rewrite Hm, Hc.
    - exfalso. apply Hnin.
      apply (list_elem_of_fmap_2' _ _ r); [done|]. by rewrite Hm, Hc. }
  subst u.
  apply targeted_has_earlier in Hin as (rp & Hrp & Hu & Hlt); [|done].
  specialize (Hmin rp Hrp Hu). lia.
Qed.

(** C4.  When [delete_duplicates] passes the cooldown check and the
    admin check on a state whose [videos] table respects its primary
    key, then afterwards [report_messages] holds no row of that chat,
    whatever the deletions of the report messages answered, and a row of
    [videos] is gone exactly when the duplicates loop called
    [delete_message] for it and the call succeeded; no row is added. *)
Theorem cleanup_reconciles_store
    (chat user : Z) (now : Q) (st : bot_state) w usage status w1 :
  pk_unique (videos st) →
  rate_limit DELETE_COOLDOWN (last_delete_usage st) chat now
  = Allowed usage →
  get_member chat user w = (Some status, w1) →
  is_admin status = true →
  filter (λ x, report_chat_id x = chat)
         (report_messages (delete_duplicates chat user now st w).1.1) = [] ∧
  (∀ r, r ∈ videos st →
     (r ∉ videos (delete_duplicates chat user now st w).1.1 ↔
      DeleteDuplicate (file_unique_id r) (message_id r) (chat_id r) true
        ∈ (delete_duplicates chat user now st w).2)) ∧
  (∀ r, r ∈ videos (delete_duplicates chat user now st w).1.1 →
        r ∈ videos st).
Proof.
  intros Hpk Hgate Hmem Hadm.
  destruct (delete_duplicates_runs_cleanup chat user now st w usage status
              w1 Hgate Hmem Hadm) as [Hst Htr].
  set (st1 := BotState (videos st) (report_messages st) (report_seq st)
                       (last_report_usage st) usage) in *.
  destruct (cleanup_effect chat st1 w1) as (w2 & Hv & Hrm & Hev).
  rewrite Hst, Htr, Hv, Hrm. simpl. split_and!.
  - apply clear_report_messages_none.
  - intros r Hr. rewrite elem_of_delete_videos, elem_of_cons.
    rewrite Hev. simpl. split.
    + intros Hgone. right.
      destruct (decide (video_key r
                  ∈ (delete_duplicate_loop (select_duplicates (videos st))
                                           None w2).1.1.1)) as [Hin|Hnin];
        [|exfalso; by apply Hgone].
      apply videos_to_delete_spec in Hin as [c Hin].
      pose proof (targeted_in_rows _ _ _ _ _ _ _ Hin) as Hrow.
      unfold select_duplicates in Hrow.
      apply list_elem_of_fmap in Hrow as (r' & Heq & Hr').
      apply duplicate_rows_elem in Hr' as [Hr' _].
      injection Heq as Hu Hm Hc.
      assert (r = r') as <-.
      { apply (pk_unique_inj (videos st)); try done.
        unfold video_key. congruence. }
      by rewrite <- Hc.
    + intros [[=]|Hin] [_ Hnin]. apply Hnin.
      apply videos_to_delete_spec. by exists (chat_id r).
  - intros r Hr. by apply elem_of_delete_videos in Hr as [? _].
Qed.

End deletion.

(** The witness of C1: two sets of two, an administrator asks, every
    deletion succeeds. *)
Lemma kept_occurrence_is_never_deleted_witness :
  (∀ r, kept two_tied_sets r →
     (∀ c ok, DeleteDuplicate (file_unique_id r) (message_id r) c ok
                ∉ (delete_duplicates 5 1 1000
                     (empty_state two_tied_sets) 100).2) ∧
     r ∈ videos (delete_duplicates 5 1 1000
                   (empty_state two_tied_sets) 100).1.1) ∧
  (∀ r, r ∈ two_tied_sets →
     ∃ r', r' ∈ videos (delete_duplicates 5 1 1000
                          (empty_state two_tied_sets) 100).1.1 ∧
           file_unique_id r' = file_unique_id r).
Proof.
  apply (kept_occurrence_is_never_deleted 5 1 1000
           (empty_state two_tied_sets) 100).
  unfold pk_unique. refine (bool_decide_unpack _ _). vm_compute. exact I.
Defined.

(** The example state of [cleanup_example], cleaned up from chat 5 by an
    administrator: message 404 stays, as do the two first occurrences, and
    the report row of chat 6. *)
Example cleanup_runs_on_example :
  videos (delete_duplicates 5 1 1000 cleanup_example 100).1.1
  = [example_row "a" 30; example_row "a" 404; example_row "b" 10] ∧
  report_messages (delete_duplicates 5 1 1000 cleanup_example 100).1.1
  = [ReportRow 2 6 91 "header" "2024-05-01T11:40:00"] ∧
  (delete_duplicates 5 1 1000 cleanup_example 100).2
  = [GetMember 5 1 (Some "administrator"%string);
     DeleteReportMessage 5 90 true;
     DeleteDuplicate "a" 404 1 false;
     DeleteDuplicate "b" 20 1 true;
     LogDeleteCompleted 2 1 1 5;
     Reply 5 (DeletedSummary 2 1 1) (Some 100)].
Proof. vm_compute. done. Qed.

(** The witness of C4, on the same example. *)
Lemma cleanup_reconciles_store_witness :
  filter (λ x, report_chat_id x = 5)
         (report_messages
            (delete_duplicates 5 1 1000 cleanup_example 100).1.1) = [] ∧
  (∀ r, r ∈ videos cleanup_example →
     (r ∉ videos (delete_duplicates 5 1 1000 cleanup_example 100).1.1 ↔
      DeleteDuplicate (file_unique_id r) (message_id r) (chat_id r) true
        ∈ (delete_duplicates 5 1 1000 cleanup_example 100).2)) ∧
  (∀ r, r ∈ videos (delete_duplicates 5 1 1000 cleanup_example 100).1.1 →
        r ∈ videos cleanup_example).
Proof.
  apply (cleanup_reconciles_store 5 1 1000 cleanup_example 100
           (<[5 := 1000%Q]> ∅) "administrator" 100).
  - unfold pk_unique. refine (bool_decide_unpack _ _). vm_compute. exact I.
  - vm_compute. reflexivity.
  - reflexivity.
  - reflexivity.
Defined.

(** ** The stable sort *)

Section stable_sort_facts.
Context {A : Type} (R : relation A) `{!RelDecision R}.
Implicit Types (x : A) (l : list A).

Lemma insert_before_ties_Permutation x l :
  insert_before_ties R x l ≡ₚ x :: l.
Proof.
  induction l as [|y l IH]; [done|]. simpl.
  destruct (decide (R x y)); [done|]. rewrite IH. apply perm_swap.
Qed.

Lemma stable_sort_Permutation l : stable_sort R l ≡ₚ l.
Proof.
  induction l as [|x l IH]; [done|].
  unfold stable_sort in *. simpl.
  by rewrite insert_before_ties_Permutation, IH.
Qed.

(** Inserting [x], which arrived before all of [l], keeps [l] sorted by
    [R] with ties in order of [S]. *)
Lemma insert_before_ties_sorted `{!Transitive R, !Total R}
    (S : relation A) x l :
  StronglySorted (λ a b, R a b ∧ (R b a → S a b)) l →
  Forall (S x) l →
  StronglySorted (λ a b, R a b ∧ (R b a → S a b))
                 (insert_before_ties R x l).
Proof.
  induction l as [|y l IH]; intros Hs Hall.
  { repeat constructor. }
  apply StronglySorted_inv in Hs as [Hs Hy].
  apply Forall_cons in Hall as [Hxy Hall]. simpl.
  destruct (decide (R x y)) as [HR|HR].
  - constructor; [by constructor|].
    constructor; [by split|].
    rewrite Forall_forall in Hy, Hall |- *. intros z Hz.
    split; [|intros _; by apply Hall].
    etrans; [exact HR|]. by apply Hy.
  - assert (R y x) as HR2 by by apply total_not.
    constructor; [by apply IH|].
    rewrite Forall_forall in Hy |- *. intros z Hz.
    rewrite insert_before_ties_Permutation in Hz.
    apply elem_of_cons in Hz as [->|Hz]; [|by apply Hy].
    split; [done|]. intros HR'. by destruct HR.
Qed.

Lemma stable_sort_keeps_ties `{!Transitive R, !Total R}
    (S : relation A) l :
  StronglySorted S l →
  StronglySorted (λ a b, R a b ∧ (R b a → S a b)) (stable_sort R l).
Proof.
  induction 1 as [|x l Hs IH Hall]; [constructor|].
  unfold stable_sort in *. simpl. apply insert_before_ties_sorted; [done|].
  rewrite Forall_forall in Hall |- *. intros z Hz. apply Hall.
  by rewrite <- (stable_sort_Permutation l).
Qed.

Lemma StronglySorted_weaken (R1 R2 : relation A) l :
  (∀ a b, R1 a b → R2 a b) → StronglySorted R1 l → StronglySorted R2 l.
Proof.
  intros Himp. induction 1 as [|x l Hs IH Hall]; constructor; [done|].
  eapply Forall_impl; [exact Hall|]. intros b. apply Himp.
Qed.

Lemma StronglySorted_stable_sort `{!Transitive R, !Total R} l :
  StronglySorted R (stable_sort R l).
Proof.
  induction l as [|x l IH]; [constructor|].
  unfold stable_sort in *. simpl.
  apply (StronglySorted_weaken (λ a b, R a b ∧ (R b a → True))).
  { by intros a b [? _]. }
  apply insert_before_ties_sorted.
  - eapply StronglySorted_weaken; [|exact IH]. by intros a b ?.
  - by apply Forall_true.
Qed.

Lemma StronglySorted_filter (P : A → Prop) `{!∀ x, Decision (P x)} l :
  StronglySorted R l → StronglySorted R (filter P l).
Proof.
  induction 1 as [|x l Hs IH Hall]; [constructor|].
  rewrite filter_cons. destruct (decide (P x)); [|done].
  constructor; [done|].
  rewrite Forall_forall in Hall |- *. intros z [_ Hz]%list_elem_of_filter.
  by apply Hall.
Qed.

Lemma StronglySorted_remove_dups `{!EqDecision A} l :
  StronglySorted R l → StronglySorted R (remove_dups l).
Proof.
  induction 1 as [|x l Hs IH Hall]; [constructor|]. simpl.
  destruct (decide_rel elem_of x l); [done|].
  constructor; [done|].
  rewrite Forall_forall in Hall |- *. intros z Hz.
  rewrite elem_of_remove_dups in Hz. by apply Hall.
Qed.

End stable_sort_facts.

(** ** The report query *)

#[global] Instance total_count_desc_trans : Transitive total_count_desc.
Proof. intros a b c. unfold total_count_desc. lia. Qed.

#[global] Instance total_count_desc_total : Total total_count_desc.
Proof. intros a b. unfold total_count_desc. lia. Qed.

Section report_query.
Context {engine : Engine}.
Implicit Types (vs : list video_row) (u : string) (t : repeated_row).

Lemma rows_with_perm u vs1 vs2 :
  vs1 ≡ₚ vs2 → rows_with u vs1 = rows_with u vs2.
Proof. intros Hp. unfold rows_with. by rewrite Hp. Qed.

Lemma rows_with_visit u vs : rows_with u (visit vs) = rows_with u vs.
Proof. apply rows_with_perm, visit_perm. Qed.

Lemma rows_with_pos u vs :
  0 < rows_with u vs → u ∈ file_unique_id <$> vs.
Proof.
  unfold rows_with. intros Hpos.
  destruct (filter (λ r, file_unique_id r = u) vs) as [|r l] eqn:Hf;
    [simpl in Hpos; lia|].
  assert (r ∈ filter (λ r, file_unique_id r = u) vs) as Hr
    by (rewrite Hf; by left).
  apply list_elem_of_filter in Hr as [<- Hr]. by apply list_elem_of_fmap_2.
Qed.

Lemma group_by_unique_id_keys scan :
  rr_unique_id <$> group_by_unique_id scan
  = remove_dups (file_unique_id <$> scan).
Proof.
  unfold group_by_unique_id. rewrite <- list_fmap_compose.
  by rewrite <- (list_fmap_id (remove_dups _)) at 2.
Qed.

Lemma elem_of_group_by_unique_id scan t :
  t ∈ group_by_unique_id scan →
  rr_unique_id t ∈ file_unique_id <$> scan ∧
  rr_total_count t = rows_with (rr_unique_id t) scan.
Proof.
  unfold group_by_unique_id. intros (u & -> & Hu)%list_elem_of_fmap.
  rewrite elem_of_remove_dups in Hu. split; [exact Hu|reflexivity].
Qed.

Lemma select_repeated_perm vs :
  select_repeated vs
  ≡ₚ filter (λ t, 1 < rr_total_count t) (group_by_unique_id (visit vs)).
Proof. apply stable_sort_Permutation. Qed.

Lemma elem_of_select_repeated vs t :
  t ∈ select_repeated vs ↔
  t ∈ group_by_unique_id (visit vs) ∧ 1 < rr_total_count t.
Proof.
  rewrite select_repeated_perm, list_elem_of_filter. tauto.
Qed.

(** Whatever order the engine visits the table in, the report query
    returns each file_unique_id stored more than once exactly once, and no
    other, each with the number of its stored rows as total_count, in
    order of non-increasing total_count. *)
Lemma report_query_lists_repeated_sets_by_count vs :
  NoDup (rr_unique_id <$> select_repeated vs) ∧
  (∀ u, u ∈ rr_unique_id <$> select_repeated vs ↔ 1 < rows_with u vs) ∧
  (∀ t, t ∈ select_repeated vs →
        rr_total_count t = rows_with (rr_unique_id t) vs) ∧
  StronglySorted total_count_desc (select_repeated vs).
Proof.
  split_and!.
  - rewrite select_repeated_perm.
    eapply sublist_NoDup;
      [|apply fmap_sublist, (sublist_filter (λ t, 1 < rr_total_count t))].
    rewrite group_by_unique_id_keys. apply NoDup_remove_dups.
  - intros u. rewrite list_elem_of_fmap. split.
    + intros (t & -> & Ht). apply elem_of_select_repeated in Ht as [Ht Hgt].
      apply elem_of_group_by_unique_id in Ht as [_ Hn].
      rewrite <- rows_with_visit, <- Hn. done.
    + intros Hgt.
      assert (u ∈ rr_unique_id <$> group_by_unique_id (visit vs)) as Hin.
      { rewrite group_by_unique_id_keys, elem_of_remove_dups.
        apply rows_with_pos. rewrite rows_with_visit. lia. }
      apply list_elem_of_fmap in Hin as (t & -> & Ht).
      exists t. split; [done|]. apply elem_of_select_repeated.
      split; [done|].
      apply elem_of_group_by_unique_id in Ht as [_ ->].
      by rewrite rows_with_visit.
  - intros t Ht. apply elem_of_select_repeated in Ht as [Ht _].
    apply elem_of_group_by_unique_id in Ht as [_ Hn].
    by rewrite <- rows_with_visit.
  - apply StronglySorted_stable_sort; apply _.
Qed.

End report_query.

#[global] Instance unique_id_le_trans : Transitive unique_id_le.
Proof. intros a b c. unfold unique_id_le. apply transitivity. Qed.

#[global] Instance unique_id_le_total : Total unique_id_le.
Proof. intros a b. unfold unique_id_le. apply total, _. Qed.

#[global] Instance pair_count_desc_then_key_antisymm :
  AntiSymm (=) pair_count_desc_then_key.
Proof.
  intros [u1 n1] [u2 n2] [Hlt|[Hn Hu]] [Hlt'|[Hn' Hu']]; simpl in *;
    try lia.
  f_equal; [|done]. by apply (anti_symm String.le).
Qed.

(** The groups leave GROUP BY in ascending order of file_unique_id when
    the table is scanned through the index. *)
Lemma sqlite_groups_in_key_order (vs : list video_row) :
  StronglySorted (λ a b, String.le (rr_unique_id a) (rr_unique_id b))
    (filter (λ t, 1 < rr_total_count t)
       (group_by_unique_id (visit (Engine := sqlite_engine) vs))).
Proof.
  apply StronglySorted_filter. unfold group_by_unique_id.
  apply (StronglySorted_fmap _ String.le); [by intros x y|].
  apply StronglySorted_remove_dups.
  apply (StronglySorted_fmap _ unique_id_le); [by intros x y|].
  apply (StronglySorted_stable_sort unique_id_le).
Qed.

Lemma key_and_count_elem {engine : Engine} (vs : list video_row) u n :
  (u, n) ∈ key_and_count <$> select_repeated vs ↔
  1 < rows_with u vs ∧ n = rows_with u vs.
Proof.
  destruct (report_query_lists_repeated_sets_by_count vs)
    as (_ & Hkeys & Hcount & _).
  rewrite list_elem_of_fmap. split.
  - intros (t & [= -> ->] & Ht). split; [|by apply Hcount].
    apply Hkeys. by apply list_elem_of_fmap_2.
  - intros [Hgt ->]. apply Hkeys in Hgt.
    apply list_elem_of_fmap in Hgt as (t & -> & Ht).
    exists t. split; [|done]. unfold key_and_count. f_equal.
    symmetry. by apply Hcount.
Qed.

(** C8.  As SQLite runs it, the report query returns each file_unique_id
    stored more than once exactly once, and no other, each with the number
    of its stored rows as total_count, ordered by total_count descending
    and, among sets of equal total_count, by file_unique_id ascending.
    The keys and counts it lists, and their order, depend only on which
    rows are stored, not on the order they were stored in. *)
Theorem report_query_orders_by_count_then_key (vs : list video_row) :
  NoDup (rr_unique_id <$> select_repeated (engine := sqlite_engine) vs) ∧
  (∀ u, u ∈ rr_unique_id <$> select_repeated (engine := sqlite_engine) vs ↔
        1 < rows_with u vs) ∧
  (∀ t, t ∈ select_repeated (engine := sqlite_engine) vs →
        rr_total_count t = rows_with (rr_unique_id t) vs) ∧
  StronglySorted count_desc_then_key
    (select_repeated (engine := sqlite_engine) vs) ∧
  (∀ vs', vs' ≡ₚ vs →
          key_and_count <$> select_repeated (engine := sqlite_engine) vs'
          = key_and_count <$> select_repeated (engine := sqlite_engine) vs).
Proof.
  assert (∀ l, StronglySorted count_desc_then_key
                 (select_repeated (engine := sqlite_engine) l)) as Hsorted.
  { intros l. unfold select_repeated.
    eapply StronglySorted_weaken;
      [|apply (stable_sort_keeps_ties total_count_desc
                 (λ a b, String.le (rr_unique_id a) (rr_unique_id b))),
              sqlite_groups_in_key_order].
    intros a b [Hab Htie]. unfold total_count_desc, count_desc_then_key in *.
    destruct (decide (rr_total_count b < rr_total_count a)); [by left|].
    right. split; [lia|]. apply Htie. lia. }
  destruct (report_query_lists_repeated_sets_by_count
              (engine := sqlite_engine) vs) as (Hnd & Hkeys & Hcount & _).
  split_and!; [done|done|done|done|].
  intros vs' Hperm.
  assert (∀ l, NoDup (key_and_count
                        <$> select_repeated (engine := sqlite_engine) l))
    as Hnd'.
  { intros l. apply (NoDup_fmap_1 fst). rewrite <- list_fmap_compose.
    by destruct (report_query_lists_repeated_sets_by_count
                   (engine := sqlite_engine) l) as (? & _). }
  apply (StronglySorted_unique pair_count_desc_then_key).
  - apply (StronglySorted_fmap _ count_desc_then_key); [by intros x y|done].
  - apply (StronglySorted_fmap _ count_desc_then_key); [by intros x y|done].
  - apply NoDup_Permutation; [done|done|].
    intros [u n]. rewrite !key_and_count_elem.
    by rewrite (rows_with_perm u vs' vs Hperm).
Qed.

(** ** The report loop *)

Section report.
Context {World : Type} {surface : Surface World} {engine : Engine}.
Implicit Types (w : World) (tr : list event) (items : list repeated_row).



Lemma report_loop_trace chat i items w :
  omap attempt_of (report_loop chat i items w).2 = captions i items ∧
  (report_loop chat i items w).1.1.2
  = length (filter (λ e, is_successful_send e = true)
                   (report_loop chat i items w).2) ∧
  artifact_columns <$> (report_loop chat i items w).1.1.1
  = omap stored_of (report_loop chat i items w).2 ∧
  paced false (report_loop chat i items w).2 = true ∧
  noticed None (report_loop chat i items w).2 = true.
Proof.
  revert i w. induction items as [|[[u v] n] rest IH]; intros i w.
  { done. }
  simpl. destruct (send_video chat v i n w) as [[mid|] w1].
  - specialize (IH (S i) (sleep w1)).
    destruct (report_loop chat (S i) rest (sleep w1))
      as [[[arts sent] w3] tr].
    simpl in *. destruct IH as (IH1 & IH2 & IH3 & IH4 & IH5).
    split_and!; try done.
    + f_equal. exact IH1.
    + rewrite filter_cons, decide_False by done. by f_equal.
    + f_equal. exact IH3.
  - destruct (reply_text chat (CouldNotSendVideo i) w1) as [error_msg w2].
    specialize (IH (S i) w2).
    destruct (report_loop chat (S i) rest w2) as [[[arts sent] w3] tr].
    simpl in *. destruct IH as (IH1 & IH2 & IH3 & IH4 & IH5).
    split_and!; try done.
    + f_equal. exact IH1.
    + rewrite fmap_app, IH3. by destruct error_msg.
    + rewrite bool_decide_true by done. done.
Qed.

Lemma insert_report_messages_columns seq arts :
  report_columns <$> (insert_report_messages seq arts).1
  = artifact_columns <$> arts.
Proof.
  revert seq. induction arts as [|[[[c m] ty] at_] rest IH]; intros seq.
  { done. }
  simpl. specialize (IH (seq + 1)).
  destruct (insert_report_messages (seq + 1) rest) as [rows seq'].
  simpl in *. f_equal. exact IH.
Qed.



(** C5.  When [report_command] passes the cooldown check, finds repeated
    sets and gets its header out, then whatever the sends answer: every
    one of the first [MAX_REPORT_VIDEOS] sets is handed to [send_video], in
    the order of the query and numbered from 1; every failed send is
    followed by the attempt to send the notice about that item; what is
    stored is the header, a "video" row for each send that succeeded and an
    "error" row for each notice that got out, and nothing for a notice
    that failed; the header tells the number of sets found and the closing
    log line the number of videos sent. *)
Theorem report_continues_after_failed_send
    chat now (st : bot_state) w usage hid w1 :
  rate_limit REPORT_COOLDOWN (last_report_usage st) chat now
  = Allowed usage →
  select_repeated (videos st) ≠ [] →
  reply_text chat (ReportHeader (length (select_repeated (videos st)))) w
  = (Some hid, w1) →
  ∃ tr sent,
    (report_command chat now st w).2
    = Reply chat (ReportHeader (length (select_repeated (videos st))))
            (Some hid)
        :: tr ++ [LogReportCompleted sent chat] ∧
    omap attempt_of tr
    = captions 1 (take MAX_REPORT_VIDEOS (select_repeated (videos st))) ∧
    noticed None tr = true ∧
    sent = length (filter (λ e, is_successful_send e = true) tr) ∧
    report_columns <$> report_messages (report_command chat now st w).1.1
    = (report_columns <$> report_messages st)
        ++ (chat, hid, "header"%string) :: omap stored_of tr.
Proof.
  intros Hgate Hne Hhead. unfold report_command. rewrite Hgate.
  cbn beta iota zeta. cbn [videos].
  destruct (select_repeated (videos st)) as [|t repeated] eqn:Hsel; [done|].
  cbn beta iota. rewrite Hhead.
  generalize (take MAX_REPORT_VIDEOS (t :: repeated)). intros items.
  destruct (report_loop_trace chat 1 items w1)
    as (Hatt & Hsent & Hart & _ & Hnot).
  destruct (report_loop chat 1 items w1) as [[[arts sent] w2] tr].
  pose proof (insert_report_messages_columns (report_seq st)
                ((chat, hid, "header"%string, now_iso w1) :: arts)) as Hcols.
  destruct (insert_report_messages _ _) as [rows seq'].
  simpl in *. exists tr, sent. split_and!; try done.
  by rewrite fmap_app, Hcols, <- Hart.
Qed.

End report.

(** The report of [three_sets] into chat 5: the second of the three videos
    cannot be sent.  The first and the third are sent and stored, the
    notice about the second is stored as an error row, the header says 3
    sets and the log line 2 videos. *)
Example report_with_second_item_failing :
  (report_command (engine := sqlite_engine) 5 1000
     (empty_state three_sets) 100).2
  = [Reply 5 (ReportHeader 3) (Some 100);
     SendVideo 5 "clip-x" 1 4 (Some 101); Sleep;
     SendVideo 5 "broken" 2 3 None;
     Reply 5 (CouldNotSendVideo 2) (Some 102);
     SendVideo 5 "clip-z" 3 2 (Some 103); Sleep;
     LogReportCompleted 2 5] ∧
  report_columns
    <$> report_messages
          (report_command (engine := sqlite_engine) 5 1000
             (empty_state three_sets) 100).1.1
  = [(5, 100, "header"); (5, 101, "video"); (5, 102, "error");
     (5, 103, "video")]%string.
Proof. vm_compute. done. Qed.

(** The witness of C5, on the same report. *)
Lemma report_continues_after_failed_send_witness :
  ∃ tr sent,
    (report_command (engine := sqlite_engine) 5 1000
       (empty_state three_sets) 100).2
    = Reply 5
        (ReportHeader
           (length (select_repeated (engine := sqlite_engine)
                      (videos (empty_state three_sets)))))
        (Some 100)
        :: tr ++ [LogReportCompleted sent 5] ∧
    omap attempt_of tr
    = captions 1
        (take MAX_REPORT_VIDEOS
           (select_repeated (engine := sqlite_engine)
              (videos (empty_state three_sets)))) ∧
    noticed None tr = true ∧
    sent = length (filter (λ e, is_successful_send e = true) tr) ∧
    report_columns
      <$> report_messages
            (report_command (engine := sqlite_engine) 5 1000
               (empty_state three_sets) 100).1.1
    = (report_columns <$> report_messages (empty_state three_sets))
        ++ (5, 100, "header"%string) :: omap stored_of tr.
Proof.
  apply (report_continues_after_failed_send (engine := sqlite_engine)
           5 1000 (empty_state three_sets) 100 (<[5 := 1000%Q]> ∅) 100 101).
  - vm_compute. reflexivity.
  - vm_compute. discriminate.
  - reflexivity.
Defined.


(** ** stats_command *)

Lemma total_duplicates_expr_rejected (scan : list video_row) :
  select_having_many total_duplicates_expr scan = None.
Proof. reflexivity. Qed.

(** In whatever state, [stats_command] ends in its [except] branch: the
    statement that should compute the total of duplicates does not
    prepare. *)
Lemma stats_command_always_fails {engine : Engine} chat (st : bot_state) :
  stats_command chat st = CouldNotRetrieveStatistics.
Proof.
  unfold stats_command. by rewrite total_duplicates_expr_rejected.
Qed.

(** C7 does not hold of the code.  With two sets of two stored rows the
    sum over the duplicate sets of (count - 1) is 2, but [stats_command]
    reports no figure at all: SUM(COUNT( * ) - 1) nests an aggregate in an
    aggregate, the statement is rejected, and the handler replies that the
    statistics could not be retrieved. *)
Lemma stats_reports_no_total_of_duplicates :
  total_excess_duplicates two_tied_sets = 2 ∧
  select_having_many total_duplicates_expr two_tied_sets = None ∧
  stats_command (engine := sqlite_engine) 5 (empty_state two_tied_sets)
  = CouldNotRetrieveStatistics.
Proof. split_and!; vm_compute; reflexivity. Qed.


(** * Further properties of the handlers *)

(** ** What the recorder keeps *)

Section recorder_more.
Implicit Types (vs : list video_row) (r : video_row) (u : string).

Lemma keys_video_handler (v : video_update) vs k :
  k ∈ video_key <$> video_handler (Some v) vs ↔
  k ∈ video_key <$> vs ∨ k = (upd_unique_id v, upd_message_id v).
Proof.
  simpl. rewrite keys_update_count. unfold insert_or_ignore.
  case_decide as Hin; simpl in Hin.
  - split; [by left|]. intros [?| ->]; done.
  - rewrite fmap_app, elem_of_app. simpl.
    by rewrite list_elem_of_singleton.
Qed.

Lemma keys_record_all upds vs k :
  k ∈ video_key <$> record_all upds vs ↔
  k ∈ video_key <$> vs ∨
  ∃ v, Some v ∈ upds ∧ k = (upd_unique_id v, upd_message_id v).
Proof.
  revert vs. induction upds as [|o upds IH]; intros vs.
  { simpl. split; [by left|]. intros [?|(v & Hv & _)]; [done|].
    by apply elem_of_nil in Hv. }
  change (record_all (o :: upds) vs)
    with (record_all upds (video_handler o vs)).
  rewrite IH. destruct o as [v0|].
  - rewrite keys_video_handler. split.
    + intros [[?| ->]|(v & Hv & ->)]; [by left| |].
      * right. exists v0. split; [by left|done].
      * right. exists v. split; [by right|done].
    + intros [?|(v & Hv & ->)]; [by left; left|].
      apply elem_of_cons in Hv as [[= <-]|Hv]; [left; by right|].
      right. by exists v.
  - simpl. split.
    + intros [?|(v & Hv & ->)]; [by left|]. right. exists v.
      split; [by right|done].
    + intros [?|(v & Hv & ->)]; [by left|].
      apply elem_of_cons in Hv as [[=]|Hv]. right. by exists v.
Qed.

Lemma messages_of_key_NoDup u vs :
  pk_unique vs →
  NoDup (message_id <$> filter (λ r, file_unique_id r = u) vs).
Proof.
  intros Hpk. apply NoDup_fmap_2_strong.
  - intros x y [Hxu Hx]%list_elem_of_filter [Hyu Hy]%list_elem_of_filter Hm.
    apply (pk_unique_inj vs); try done. unfold video_key. congruence.
  - apply NoDup_filter. by apply (NoDup_fmap_1 video_key).
Qed.

Lemma messages_of_key_elem u vs m :
  m ∈ message_id <$> filter (λ r, file_unique_id r = u) vs ↔
  (u, m) ∈ video_key <$> vs.
Proof.
  rewrite !list_elem_of_fmap. split.
  - intros (r & -> & [<- Hr]%list_elem_of_filter). by exists r.
  - intros (r & [= -> ->] & Hr). exists r. split; [done|].
    by apply list_elem_of_filter.
Qed.

(** The message ids stored for a key after a run of the recorder are the
    message ids it was seen under. *)
Lemma recorded_messages_of_key (upds : list (option video_update)) u :
  message_id <$> filter (λ r, file_unique_id r = u) (record_all upds [])
  ≡ₚ seen_messages u upds.
Proof.
  apply NoDup_Permutation.
  - apply messages_of_key_NoDup, pk_unique_record_all. constructor.
  - apply NoDup_remove_dups.
  - intros m. rewrite messages_of_key_elem, keys_record_all.
    unfold seen_messages. rewrite elem_of_remove_dups, list_elem_of_omap.
    split.
    + intros [Hnil|(v & Hv & [= -> ->])]; [by apply elem_of_nil in Hnil|].
      exists (Some v). split; [done|]. by rewrite decide_True.
    + intros ([v|] & Hv & Hm); [|done].
      case_decide as Hu; [|done]. injection Hm as <-. subst u.
      right. by exists v.
Qed.

(** X1.  After any sequence of [video_handler] calls on an empty table,
    the number of stored rows of a file_unique_id is the number of
    different message ids it was seen under: a message delivered twice
    counts once, and so does the same message id coming from two chats. *)
Theorem recorded_rows_count_distinct_messages
    (upds : list (option video_update)) u :
  rows_with u (record_all upds [])
  = Z.of_nat (length (seen_messages u upds)).
Proof.
  unfold rows_with. f_equal.
  rewrite <- (length_fmap message_id).
  apply Permutation_length, recorded_messages_of_key.
Qed.

Lemma same_occurrence_video_handler upd vs r :
  r ∈ vs → ∃ r', r' ∈ video_handler upd vs ∧ same_occurrence r r'.
Proof.
  intros Hr. destruct upd as [v|]; [|by exists r]. simpl.
  set (vs1 := insert_or_ignore _ vs).
  assert (r ∈ vs1) as Hr1.
  { unfold vs1, insert_or_ignore. case_decide; [done|].
    apply elem_of_app. by left. }
  exists (if decide (file_unique_id r = upd_unique_id v)
          then set_count (rows_with (upd_unique_id v) vs1) r else r).
  split.
  - apply elem_of_update_count. by exists r.
  - by case_decide.
Qed.

(** X2.  Recording never loses a row and never rewrites what a row says
    about its occurrence: whatever updates follow, every stored row is
    still stored with the same key, file_id, first_seen and chat_id; only
    its [count] can differ.  So the first delivery of a message fixes
    [first_seen], and a later delivery of the same message does not
    refresh it. *)
Theorem recording_keeps_every_occurrence
    (upds : list (option video_update)) vs r :
  r ∈ vs → ∃ r', r' ∈ record_all upds vs ∧ same_occurrence r r'.
Proof.
  revert vs r. induction upds as [|o upds IH]; intros vs r Hr.
  { by exists r. }
  destruct (same_occurrence_video_handler o vs r Hr) as (r1 & Hr1 & H1).
  destruct (IH _ _ Hr1) as (r2 & Hr2 & H2).
  exists r2. split; [done|].
  destruct H1 as (?&?&?&?), H2 as (?&?&?&?).
  unfold same_occurrence. split_and!; congruence.
Qed.

End recorder_more.

(** The witness of X2: the row of message 10 keeps its first file_id and
    first_seen through the updates of [example_updates]. *)
Lemma recording_keeps_every_occurrence_witness :
  ∃ r', r' ∈ record_all example_updates [example_row "A" 10] ∧
        same_occurrence (example_row "A" 10) r'.
Proof.
  apply (recording_keeps_every_occurrence example_updates
           [example_row "A" 10] (example_row "A" 10)).
  by apply (bool_decide_unpack _).
Defined.

(** ** What the two queries return *)

Section queries_more.
Context {engine : Engine}.
Implicit Types (vs : list video_row) (r : video_row) (u : string).

(** X3.  The video the report shows for a repeated set is one that is
    stored for that set: each row of the report query carries the file_id
    of some stored row with the same file_unique_id. *)
Theorem report_query_shows_a_stored_video vs (t : repeated_row) :
  t ∈ select_repeated vs →
  ∃ r, r ∈ vs ∧ file_unique_id r = rr_unique_id t ∧ file_id r = t.1.2.
Proof.
  intros [Ht _]%elem_of_select_repeated.
  unfold group_by_unique_id in Ht.
  apply list_elem_of_fmap in Ht as (u & -> & Hu).
  rewrite elem_of_remove_dups in Hu.
  apply list_elem_of_fmap in Hu as (r0 & -> & Hr0).
  destruct (filter (λ r, file_unique_id r = file_unique_id r0) (visit vs))
    as [|r l] eqn:Hf.
  { assert (r0 ∈ filter (λ r, file_unique_id r = file_unique_id r0)
                        (visit vs)) as Hin by by apply list_elem_of_filter.
    rewrite Hf in Hin. by apply elem_of_nil in Hin. }
  assert (r ∈ filter (λ r, file_unique_id r = file_unique_id r0) (visit vs))
    as [Hru Hr]%list_elem_of_filter by (rewrite Hf; by left).
  exists r. split_and!; [|done|done].
  by rewrite <- (visit_perm vs).
Qed.

Lemma select_repeated_nil vs :
  (∀ u, rows_with u vs ≤ 1) → select_repeated vs = [].
Proof.
  intros Hle. destruct (select_repeated vs) as [|t l] eqn:Hsel; [done|].
  assert (t ∈ select_repeated vs) as [Ht Hgt]%elem_of_select_repeated
    by (rewrite Hsel; by left).
  apply elem_of_group_by_unique_id in Ht as [_ Hn].
  rewrite rows_with_visit in Hn. specialize (Hle (rr_unique_id t)). lia.
Qed.

End queries_more.

Lemma strongly_sorted_distinct {A B} (R : relation A) (f : A → B)
    (l : list A) :
  StronglySorted R l → NoDup (f <$> l) →
  StronglySorted (λ x y, R x y ∧ f x ≠ f y) l.
Proof.
  induction 1 as [|x l Hs IH Hall]; intros Hnd; [constructor|].
  rewrite fmap_cons in Hnd. apply NoDup_cons in Hnd as [Hx Hnd].
  constructor; [by apply IH|].
  rewrite Forall_forall in Hall |- *. intros y Hy. split; [by apply Hall|].
  intros Heq. apply Hx. rewrite Heq. by apply list_elem_of_fmap_2.
Qed.

(** X4.  On a table that respects its primary key, the duplicates query
    returns, each once, exactly the stored (file_unique_id, message_id,
    chat_id) whose file_unique_id is stored more than once, ordered by
    file_unique_id and, within one file_unique_id, by strictly increasing
    message_id: the order the skip-the-first loop relies on. *)
Theorem duplicates_query_is_grouped_and_ordered (vs : list video_row) :
  pk_unique vs →
  (∀ u m c,
     (u, m, c) ∈ select_duplicates vs ↔
     (∃ r, r ∈ vs ∧ file_unique_id r = u ∧ message_id r = m ∧ chat_id r = c)
     ∧ 1 < rows_with u vs) ∧
  StronglySorted by_key_then_message (select_duplicates vs) ∧
  NoDup (select_duplicates vs).
Proof.
  intros Hpk. split_and!.
  - intros u m c. unfold select_duplicates. rewrite list_elem_of_fmap. split.
    + intros (r & [= -> -> ->] & [Hr Hgt]%duplicate_rows_elem).
      split; [by exists r|done].
    + intros [(r & Hr & <- & <- & <-) Hgt]. exists r. split; [done|].
      by apply duplicate_rows_elem.
  - unfold select_duplicates.
    apply (StronglySorted_fmap _ (λ x y, key_le x y ∧ video_key x ≠ video_key y)).
    + intros x y [[Hle Hm] Hne]. split; [done|]. simpl. intros Hu.
      specialize (Hm Hu). unfold video_key in Hne.
      assert (message_id x ≠ message_id y) by congruence. lia.
    + apply strongly_sorted_distinct; [apply duplicate_rows_sorted|].
      by apply duplicate_rows_pk.
  - unfold select_duplicates.
    pose proof (duplicate_rows_pk vs Hpk) as Hnd. unfold pk_unique in Hnd.
    apply (NoDup_fmap_1 (λ t : string * Z * Z, (t.1.1, t.1.2))).
    by rewrite <- list_fmap_compose.
Qed.

(** The witness of X4. *)
Lemma duplicates_query_is_grouped_and_ordered_witness :
  (∀ u m c,
     (u, m, c) ∈ select_duplicates two_tied_sets ↔
     (∃ r, r ∈ two_tied_sets ∧ file_unique_id r = u ∧ message_id r = m
           ∧ chat_id r = c)
     ∧ 1 < rows_with u two_tied_sets) ∧
  StronglySorted by_key_then_message (select_duplicates two_tied_sets) ∧
  NoDup (select_duplicates two_tied_sets).
Proof.
  apply (duplicates_query_is_grouped_and_ordered two_tied_sets).
  unfold pk_unique. refine (bool_decide_unpack _ _). vm_compute. exact I.
Defined.

(** The witness of X3. *)
Lemma report_query_shows_a_stored_video_witness :
  ∃ r, r ∈ two_tied_sets ∧
       file_unique_id r = rr_unique_id ("a", "file-a", 2)%string ∧
       file_id r = "file-a"%string.
Proof.
  apply (report_query_shows_a_stored_video (engine := sqlite_engine)
           two_tied_sets ("a", "file-a", 2)%string).
  refine (bool_decide_unpack _ _). vm_compute. exact I.
Defined.

(** ** What report_command leaves alone *)

Section report_more.
Context {World : Type} {surface : Surface World} {engine : Engine}.
Implicit Types (w : World) (tr : list event) (items : list repeated_row).

Lemma report_loop_chat chat i items w :
  Forall (λ a : artifact, a.1.1.1 = chat) (report_loop chat i items w).1.1.1.
Proof.
  revert i w. induction items as [|[[u v] n] rest IH]; intros i w.
  { constructor. }
  simpl. destruct (send_video chat v i n w) as [[mid|] w1].
  - specialize (IH (S i) (sleep w1)).
    destruct (report_loop chat (S i) rest (sleep w1))
      as [[[arts sent] w3] tr].
    simpl in *. by constructor.
  - destruct (reply_text chat (CouldNotSendVideo i) w1) as [[emid|] w2];
      specialize (IH (S i) w2);
      destruct (report_loop chat (S i) rest w2) as [[[arts sent] w3] tr];
      simpl in *; [by constructor|done].
Qed.

Lemma report_loop_sends chat i items w :
  length (filter (λ e, is_send e = true) (report_loop chat i items w).2)
  = length items.
Proof.
  revert i w. induction items as [|[[u v] n] rest IH]; intros i w.
  { done. }
  simpl. destruct (send_video chat v i n w) as [[mid|] w1].
  - specialize (IH (S i) (sleep w1)).
    destruct (report_loop chat (S i) rest (sleep w1))
      as [[[arts sent] w3] tr].
    cbn [snd] in *. rewrite filter_cons, decide_True by done.
    rewrite filter_cons, decide_False by done. simpl. by rewrite IH.
  - destruct (reply_text chat (CouldNotSendVideo i) w1) as [emid w2].
    specialize (IH (S i) w2).
    destruct (report_loop chat (S i) rest w2) as [[[arts sent] w3] tr].
    cbn [snd] in *. rewrite filter_cons, decide_True by done.
    rewrite filter_cons, decide_False by done. simpl. by rewrite IH.
Qed.

Lemma insert_report_messages_chat seq (arts : list artifact) chat :
  Forall (λ a : artifact, a.1.1.1 = chat) arts →
  Forall (λ x, report_chat_id x = chat) (insert_report_messages seq arts).1.
Proof.
  revert seq. induction arts as [|[[[c m] ty] at_] rest IH]; intros seq Hall.
  { constructor. }
  apply Forall_cons in Hall as [Hc Hall]. simpl.
  specialize (IH (seq + 1) Hall).
  destruct (insert_report_messages (seq + 1) rest) as [rows seq'].
  simpl in *. by constructor.
Qed.

(** X5.  Whatever way [report_command] takes, it leaves the [videos]
    table and the delete cooldown as they are, touches the report cooldown
    of no other chat, and keeps every stored report row: what it adds to
    [report_messages] comes after them and belongs to the chat of the
    command. *)
Theorem report_only_appends_rows_of_its_chat chat now (st : bot_state) w :
  videos (report_command chat now st w).1.1 = videos st ∧
  last_delete_usage (report_command chat now st w).1.1
  = last_delete_usage st ∧
  (∀ c, c ≠ chat →
        last_report_usage (report_command chat now st w).1.1 !! c
        = last_report_usage st !! c) ∧
  ∃ rows,
    report_messages (report_command chat now st w).1.1
    = report_messages st ++ rows ∧
    Forall (λ x, report_chat_id x = chat) rows.
Proof.
  unfold report_command, report_failed.
  destruct (rate_limit _ _ _ _) as [usage|remaining] eqn:Hgate.
  - apply rate_limit_allowed_inv in Hgate as ->.
    cbn beta iota zeta. cbn [videos report_messages report_seq
                              last_report_usage last_delete_usage].
    destruct (select_repeated (videos st)) as [|t repeated].
    + repeat (destruct (reply_text _ _ _) as [[?|] ?]; simpl);
        (split_and!; [done|done|by intros; apply lookup_insert_ne|];
         exists []; by rewrite app_nil_r).
    + cbn beta iota. generalize (take MAX_REPORT_VIDEOS (t :: repeated)).
      intros items.
      destruct (reply_text chat _ w) as [[hid|] w1].
      * pose proof (report_loop_chat chat 1 items w1) as Hchat.
        destruct (report_loop chat 1 items w1) as [[[arts sent] w2] tr].
        pose proof (insert_report_messages_chat (report_seq st)
                      ((chat, hid, "header"%string, now_iso w1) :: arts)
                      chat) as Hrows.
        destruct (insert_report_messages _ _) as [rows seq'].
        simpl in *.
        split_and!; [done|done|by intros; apply lookup_insert_ne|].
        exists rows. split; [done|]. apply Hrows. by constructor.
      * destruct (reply_text _ _ _) as [? ?]. simpl.
        split_and!; [done|done|by intros; apply lookup_insert_ne|].
        exists []. by rewrite app_nil_r.
  - repeat (destruct (reply_text _ _ _) as [[?|] ?]; simpl);
      (split_and!; [done|done|done|]; exists []; by rewrite app_nil_r).
Qed.

(** X6.  In any run of [report_command] at most [MAX_REPORT_VIDEOS]
    videos are handed to [send_video], and never more than there are
    repeated sets. *)
Theorem report_sends_at_most_the_limit chat now (st : bot_state) w :
  (length (filter (λ e, is_send e = true) (report_command chat now st w).2)
   ≤ MAX_REPORT_VIDEOS)%nat ∧
  (length (filter (λ e, is_send e = true) (report_command chat now st w).2)
   ≤ length (select_repeated (videos st)))%nat.
Proof.
  unfold report_command, report_failed.
  destruct (rate_limit _ _ _ _) as [usage|remaining].
  - cbn beta iota zeta. cbn [videos].
    destruct (select_repeated (videos st)) as [|t repeated] eqn:Hsel.
    + repeat (destruct (reply_text _ _ _) as [[?|] ?]; simpl);
        unfold MAX_REPORT_VIDEOS; lia.
    + cbn beta iota.
      pose proof (length_take (t :: repeated) MAX_REPORT_VIDEOS) as Hlen.
      revert Hlen.
      generalize (take MAX_REPORT_VIDEOS (t :: repeated)). intros items Hlen.
      assert ((length items ≤ MAX_REPORT_VIDEOS)%nat ∧
              (length items ≤ length (t :: repeated))%nat) as [Hle1 Hle2]
        by (rewrite Hlen; lia).
      clear Hlen.
      destruct (reply_text chat _ w) as [[hid|] w1].
      * pose proof (report_loop_sends chat 1 items w1) as Hn.
        destruct (report_loop chat 1 items w1) as [[[arts sent] w2] tr].
        destruct (insert_report_messages _ _) as [rows seq'].
        cbn [snd]. rewrite filter_cons, decide_False by done.
        rewrite filter_app, length_app. simpl in Hn. rewrite Hn.
        rewrite filter_cons, decide_False by done.
        unfold MAX_REPORT_VIDEOS in *. simpl in *. lia.
      * destruct (reply_text _ _ _) as [? ?]. simpl.
        unfold MAX_REPORT_VIDEOS. lia.
  - repeat (destruct (reply_text _ _ _) as [[?|] ?]; simpl);
      unfold MAX_REPORT_VIDEOS; lia.
Qed.

(** X7.  When no file_unique_id is stored more than once and the cooldown
    check lets /report through, the command answers that there are no
    repeated videos, sends no video and stores nothing, yet the time of
    the invocation is recorded for the chat: an empty report also starts
    the cooldown. *)
Theorem empty_report_still_arms_cooldown
    chat now (st : bot_state) w usage :
  rate_limit REPORT_COOLDOWN (last_report_usage st) chat now
  = Allowed usage →
  (∀ u, rows_with u (videos st) ≤ 1) →
  (∃ res, head (report_command chat now st w).2
          = Some (Reply chat NoRepeatedVideos res)) ∧
  Forall (λ e, is_send e = false) (report_command chat now st w).2 ∧
  report_messages (report_command chat now st w).1.1 = report_messages st ∧
  last_report_usage (report_command chat now st w).1.1 !! chat = Some now.
Proof.
  intros Hgate Hle. unfold report_command, report_failed. rewrite Hgate.
  apply rate_limit_allowed_inv in Hgate as ->.
  cbn beta iota zeta. cbn [videos]. rewrite (select_repeated_nil _ Hle).
  repeat (destruct (reply_text _ _ _) as [[?|] ?]; simpl);
    (split_and!; [by eexists|repeat constructor|done|apply lookup_insert_eq]).
Qed.

End report_more.

(** The witness of X7: one video stored once, /report never run before. *)
Lemma empty_report_still_arms_cooldown_witness :
  (∃ res, head (report_command (engine := sqlite_engine) 5 1000
                  (empty_state [example_row "a" 30]) 100).2
          = Some (Reply 5 NoRepeatedVideos res)) ∧
  Forall (λ e, is_send e = false)
    (report_command (engine := sqlite_engine) 5 1000
       (empty_state [example_row "a" 30]) 100).2 ∧
  report_messages
    (report_command (engine := sqlite_engine) 5 1000
       (empty_state [example_row "a" 30]) 100).1.1
  = report_messages (empty_state [example_row "a" 30]) ∧
  last_report_usage
    (report_command (engine := sqlite_engine) 5 1000
       (empty_state [example_row "a" 30]) 100).1.1 !! 5 = Some 1000%Q.
Proof.
  apply (empty_report_still_arms_cooldown (engine := sqlite_engine)
           5 1000 (empty_state [example_row "a" 30]) 100
           (<[5 := 1000%Q]> ∅)).
  - vm_compute. reflexivity.
  - intros u. unfold rows_with. simpl. rewrite filter_cons.
    case_decide; simpl; lia.
Defined.

(** ** What delete_duplicates reaches and what it leaves *)

Section deletion_more.
Context {World : Type} {surface : Surface World}.
Implicit Types (vs : list video_row) (r : video_row) (w : World).

Lemma delete_videos_filter (keys : list (string * Z)) vs :
  delete_videos keys vs = filter (λ r, video_key r ∉ keys) vs.
Proof.
  unfold delete_videos. revert vs.
  induction keys as [|k keys IH]; intros vs; simpl.
  { induction vs as [|x vs IHvs]; [done|].
    rewrite filter_cons, decide_True by by intros ?%elem_of_nil.
    by f_equal. }
  rewrite IH, list_filter_filter. apply list_filter_iff.
  intros x. rewrite not_elem_of_cons. tauto.
Qed.

(** A run of [delete_duplicates] that passes both checks, in terms of the
    duplicates loop. *)
Lemma delete_duplicates_passed chat user now (st : bot_state) w usage
    status w1 :
  rate_limit DELETE_COOLDOWN (last_delete_usage st) chat now
  = Allowed usage →
  get_member chat user w = (Some status, w1) →
  is_admin status = true →
  ∃ w2,
    videos (delete_duplicates chat user now st w).1.1
    = delete_videos
        (delete_duplicate_loop (select_duplicates (videos st)) None w2)
          .1.1.1
        (videos st) ∧
    ∀ u m c ok,
      DeleteDuplicate u m c ok ∈ (delete_duplicates chat user now st w).2 ↔
      DeleteDuplicate u m c ok
        ∈ (delete_duplicate_loop (select_duplicates (videos st)) None w2).2.
Proof.
  intros Hgate Hmem Hadm.
  destruct (delete_duplicates_runs_cleanup chat user now st w usage status
              w1 Hgate Hmem Hadm) as [Hst Htr].
  destruct (cleanup_effect chat
              (BotState (videos st) (report_messages st) (report_seq st)
                        (last_report_usage st) usage) w1)
    as (w2 & Hv & _ & Hev).
  exists w2. rewrite Hst, Htr. split; [done|].
  intros u m c ok. rewrite elem_of_cons, <- Hev. simpl.
  split; [by intros [[=]|?]|by right].
Qed.

Lemma kept_or_later vs r :
  pk_unique vs → r ∈ vs →
  kept vs r ∨
  ∃ rp, rp ∈ vs ∧ file_unique_id rp = file_unique_id r ∧
        message_id rp < message_id r.
Proof.
  intros Hpk Hr. destruct (kept_exists vs r Hr) as (k & [Hk Hmin] & Hu).
  destruct (decide (message_id k < message_id r)) as [Hlt|Hge].
  - right. by exists k.
  - left. assert (k = r) as <-; [|by split].
    apply (pk_unique_inj vs); try done.
    assert (message_id k ≤ message_id r) by (apply Hmin; [done|congruence]).
    unfold video_key. f_equal; [done|lia].
Qed.

(** A row that comes right after a row of its key, or comes first while
    [last_unique] is at its key, is handed to [delete_message]. *)
Lemma follower_is_targeted rows last_unique w pre u m c post :
  rows = pre ++ (u, m, c) :: post →
  match last pre with
  | Some p => p.1.1 = u
  | None => last_unique = Some u
  end →
  ∃ ok, DeleteDuplicate u m c ok
          ∈ (delete_duplicate_loop rows last_unique w).2.
Proof.
  revert rows last_unique w.
  induction pre as [|[[u0 m0] c0] pre IH]; intros rows last_unique w -> Hlast.
  - simpl in *. subst last_unique.
    rewrite decide_False by (intros Hne; by apply Hne).
    destruct (delete_message c m w) as [ok w1].
    destruct (delete_duplicate_loop post (Some u) w1) as [[[dels n] w2] tr].
    exists ok. by left.
  - assert (∀ w',
              ∃ ok, DeleteDuplicate u m c ok
                      ∈ (delete_duplicate_loop (pre ++ (u, m, c) :: post)
                                               (Some u0) w').2) as Hrest.
    { intros w'. apply IH; [done|].
      destruct pre as [|p pre]; [simpl in *; by f_equal|].
      rewrite last_cons_cons in Hlast.
      destruct (last (p :: pre)) eqn:Hp; [done|by apply last_None in Hp]. }
    simpl. destruct (decide (Some u0 ≠ last_unique)) as [Hne|Heq].
    + apply Hrest.
    + apply dec_stable in Heq. subst last_unique.
      destruct (delete_message c0 m0 w) as [ok0 w1].
      destruct (Hrest w1) as [ok Hin].
      destruct (delete_duplicate_loop (pre ++ (u, m, c) :: post)
                                      (Some u0) w1) as [[[dels n] w2] tr].
      exists ok. by right.
Qed.

Lemma two_rows_of_a_key vs r rp :
  r ∈ vs → rp ∈ vs → file_unique_id rp = file_unique_id r → rp ≠ r →
  1 < rows_with (file_unique_id r) vs.
Proof.
  intros Hr Hrp Hu Hne. unfold rows_with.
  assert (r ∈ filter (λ x, file_unique_id x = file_unique_id r) vs) as H1
    by by apply list_elem_of_filter.
  assert (rp ∈ filter (λ x, file_unique_id x = file_unique_id r) vs) as H2
    by by apply list_elem_of_filter.
  destruct (filter (λ x, file_unique_id x = file_unique_id r) vs)
    as [|a [|b l]]; simpl; [by apply elem_of_nil in H1| |lia].
  apply list_elem_of_singleton in H1, H2. congruence.
Qed.

(** Every stored row that has a stored row of its key with a smaller
    message id is handed to [delete_message] by the duplicates loop. *)
Lemma later_row_is_targeted vs w r rp :
  pk_unique vs → r ∈ vs → rp ∈ vs →
  file_unique_id rp = file_unique_id r → message_id rp < message_id r →
  ∃ ok, DeleteDuplicate (file_unique_id r) (message_id r) (chat_id r) ok
          ∈ (delete_duplicate_loop (select_duplicates vs) None w).2.
Proof.
  intros Hpk Hr Hrp Hu Hlt.
  assert (rp ≠ r) as Hne by (intros ->; lia).
  pose proof (two_rows_of_a_key vs r rp Hr Hrp Hu Hne) as Hgt.
  assert (r ∈ duplicate_rows vs) as Hrd by by apply duplicate_rows_elem.
  assert (rp ∈ duplicate_rows vs) as Hrpd.
  { apply duplicate_rows_elem. split; [done|]. by rewrite Hu. }
  apply list_elem_of_split in Hrd as (l1 & l3 & Hsplit).
  pose proof (duplicate_rows_sorted vs) as Hsorted. rewrite Hsplit in Hsorted.
  rewrite Hsplit in Hrpd. apply elem_of_app in Hrpd as [Hin1|Hin3].
  2:{ apply elem_of_cons in Hin3 as [?|Hin3]; [done|].
      apply StronglySorted_app_1_r, StronglySorted_inv in Hsorted
        as [_ Hall].
      rewrite Forall_forall in Hall. destruct (Hall rp Hin3) as [_ Hm].
      specialize (Hm (eq_sym Hu)). lia. }
  destruct (last l1) as [p|] eqn:Hp;
    [|apply last_None in Hp; subst l1; by apply elem_of_nil in Hin1].
  apply last_Some in Hp as [l1' ->].
  assert (file_unique_id p = file_unique_id r) as Hpu.
  { assert (key_le p r) as [Hpr _].
    { apply (StronglySorted_app_1_elem_of key_le (l1' ++ [p]) (r :: l3));
        [done| |by left]. apply elem_of_app. right. by left. }
    apply elem_of_app in Hin1 as [Hin1|Hin1].
    - apply StronglySorted_app_1_l in Hsorted.
      assert (key_le rp p) as [Hrpp _].
      { apply (StronglySorted_app_1_elem_of key_le l1' [p]);
          [done|done|by left]. }
      rewrite Hu in Hrpp. by apply (anti_symm String.le).
    - apply list_elem_of_singleton in Hin1. by subst p. }
  apply (follower_is_targeted _ None w
           ((λ x, (file_unique_id x, message_id x, chat_id x))
              <$> (l1' ++ [p]))
           _ _ _
           ((λ x, (file_unique_id x, message_id x, chat_id x)) <$> l3)).
  - unfold select_duplicates. rewrite Hsplit, fmap_app. done.
  - rewrite fmap_last, last_snoc. simpl. done.
Qed.

Lemma kept_row_survives chat user now (st : bot_state) w r :
  pk_unique (videos st) → kept (videos st) r →
  r ∈ videos (delete_duplicates chat user now st w).1.1.
Proof.
  intros Hpk [Hr Hmin].
  destruct (delete_duplicates_effect chat user now st w)
    as [[-> _]|(w1 & -> & _)]; [done|].
  apply elem_of_delete_videos. split; [done|].
  intros [c Hin]%videos_to_delete_spec.
  apply targeted_has_earlier in Hin as (rp & Hrp & Hu & Hlt); [|done].
  specialize (Hmin rp Hrp Hu). lia.
Qed.

(** X8.  A requester who is not an administrator or the creator of the
    chat, or whose membership cannot be looked up, never gets anything
    deleted: whatever the cooldown says, no [delete_message] call is made
    and both tables stay as they are. *)
Theorem only_admins_delete chat user now (st : bot_state) w :
  (∀ status, (get_member chat user w).1 = Some status →
             is_admin status = false) →
  Forall (λ e, is_delete e = false) (delete_duplicates chat user now st w).2 ∧
  videos (delete_duplicates chat user now st w).1.1 = videos st ∧
  report_messages (delete_duplicates chat user now st w).1.1
  = report_messages st.
Proof.
  intros Hnot.
  destruct (delete_duplicates_cases chat user now st w)
    as [(? & ? & ?)|(usage & status & w1 & _ & Hmem & Hadm & _)]; [done|].
  specialize (Hnot status). rewrite Hmem in Hnot.
  rewrite Hnot in Hadm; done.
Qed.

(** X9.  When [delete_duplicates] passes both checks on a table that
    respects its primary key, the stored rows handed to [delete_message]
    by the duplicates loop are exactly those that are not the kept
    occurrence of their key. *)
Theorem every_later_occurrence_is_targeted
    chat user now (st : bot_state) w usage status w1 r :
  pk_unique (videos st) →
  rate_limit DELETE_COOLDOWN (last_delete_usage st) chat now
  = Allowed usage →
  get_member chat user w = (Some status, w1) →
  is_admin status = true →
  r ∈ videos st →
  (∃ ok, DeleteDuplicate (file_unique_id r) (message_id r) (chat_id r) ok
           ∈ (delete_duplicates chat user now st w).2) ↔
  ¬ kept (videos st) r.
Proof.
  intros Hpk Hgate Hmem Hadm Hr.
  destruct (delete_duplicates_passed chat user now st w usage status w1
              Hgate Hmem Hadm) as (w2 & _ & Hev).
  split.
  - intros [ok Hin] [_ Hmin]. apply Hev in Hin.
    apply targeted_has_earlier in Hin as (rp & Hrp & Hu & Hlt); [|done].
    specialize (Hmin rp Hrp Hu). lia.
  - intros Hnk.
    destruct (kept_or_later _ _ Hpk Hr) as [?|(rp & Hrp & Hu & Hlt)];
      [done|].
    destruct (later_row_is_targeted (videos st) w2 r rp Hpk Hr Hrp Hu Hlt)
      as [ok Hin].
    exists ok. by apply Hev.
Qed.

Lemma filter_none {A} (P : A → Prop) `{!∀ x, Decision (P x)} (l : list A) :
  (∀ x, x ∈ l → ¬ P x) → filter P l = [].
Proof.
  induction l as [|x l IH]; intros Hall; [done|].
  rewrite filter_cons, decide_False by (apply Hall; by left).
  apply IH. intros y Hy. apply Hall. by right.
Qed.

Lemma omap_none {A B} (f : A → option B) (l : list A) :
  (∀ x, x ∈ l → f x = None) → omap f l = [].
Proof.
  induction l as [|x l IH]; intros Hall; [done|].
  simpl. rewrite (Hall x) by by left. apply IH.
  intros y Hy. apply Hall. by right.
Qed.

Lemma delete_report_loop_trace chat (mids : list Z) w :
  omap report_delete_of (delete_report_loop chat mids w).2 = mids ∧
  (delete_report_loop chat mids w).1.1
  = length (filter (λ e, is_successful_report_delete e = true)
                   (delete_report_loop chat mids w).2).
Proof.
  revert w. induction mids as [|m0 rest IH]; intros w; [done|].
  simpl. destruct (delete_message chat m0 w) as [ok0 w1].
  specialize (IH w1).
  destruct (delete_report_loop chat rest w1) as [[cnt w2] tr].
  cbn [fst snd] in *. destruct IH as [IH1 IH2]. split.
  - simpl. f_equal. exact IH1.
  - rewrite filter_cons. destruct ok0.
    + rewrite decide_True by done. simpl. by rewrite IH2.
    + by rewrite decide_False.
Qed.

Lemma delete_duplicate_loop_dels rows last_unique w :
  (delete_duplicate_loop rows last_unique w).1.1.1
    `sublist_of` ((λ t : string * Z * Z, (t.1.1, t.1.2)) <$> rows) ∧
  (delete_duplicate_loop rows last_unique w).1.1.2
  = length (delete_duplicate_loop rows last_unique w).1.1.1.
Proof.
  revert last_unique w.
  induction rows as [|[[u0 m0] c0] rest IH]; intros last_unique w.
  { done. }
  simpl. destruct (decide (Some u0 ≠ last_unique)) as [Hne|Heq].
  - destruct (IH (Some u0) w) as [IH1 IH2]. split; [|done].
    by apply sublist_cons.
  - specialize (IH last_unique).
    destruct (delete_message c0 m0 w) as [ok0 w1]. specialize (IH w1).
    destruct (delete_duplicate_loop rest last_unique w1)
      as [[[dels cnt] w2] tr].
    cbn [fst snd] in *. destruct IH as [IH1 IH2]. destruct ok0.
    + split; [by apply sublist_skip|]. simpl. by rewrite IH2.
    + split; [by apply sublist_cons|done].
Qed.

Lemma delete_videos_length (dels : list (string * Z)) vs :
  pk_unique vs → NoDup dels →
  (∀ k, k ∈ dels → k ∈ video_key <$> vs) →
  (length (delete_videos dels vs) + length dels = length vs)%nat.
Proof.
  intros Hpk Hnd Hsub. rewrite delete_videos_filter.
  rewrite <- (Permutation_length
                (filter_app_complement (λ r, video_key r ∉ dels) vs)).
  rewrite length_app. f_equal.
  rewrite <- (length_fmap video_key
                (filter (λ r, ¬ (video_key r ∉ dels)) vs)).
  apply Permutation_length, NoDup_Permutation; [done| |].
  - eapply sublist_NoDup; [exact Hpk|].
    apply fmap_sublist, sublist_filter.
  - intros k. rewrite list_elem_of_fmap. split.
    + intros Hk. pose proof (Hsub k Hk) as Hk'.
      apply list_elem_of_fmap in Hk' as (r & -> & Hr).
      exists r. split; [done|]. apply list_elem_of_filter.
      split; [|done]. by intros Hn.
    + intros (r & -> & [Hin _]%list_elem_of_filter).
      by apply dec_stable in Hin.
Qed.

(** The trace of [cleanup], with its closing log line and reply. *)
Lemma cleanup_trace chat (st : bot_state) w :
  ∃ n1 w1 tr1 dels n2 w2 tr2 res rest,
    delete_report_loop chat
      (select_report_messages chat (report_messages st)) w
    = (n1, w1, tr1) ∧
    delete_duplicate_loop (select_duplicates (videos st)) None w1
    = (dels, n2, w2, tr2) ∧
    (cleanup chat st w).2
    = tr1 ++ tr2
        ++ LogDeleteCompleted (n1 + n2) n1 n2 chat
             :: Reply chat (DeletedSummary (n1 + n2) n1 n2) res :: rest ∧
    Forall (λ e, is_reply e = true) rest ∧
    videos (cleanup chat st w).1.1 = delete_videos dels (videos st).
Proof.
  unfold cleanup.
  destruct (delete_report_loop _ _ _) as [[n1 w1] tr1] eqn:Hrep.
  destruct (delete_duplicate_loop _ _ _) as [[[dels n2] w2] tr2] eqn:Hdup.
  assert (match dels with
          | [] => videos st
          | _ :: _ => delete_videos dels (videos st)
          end = delete_videos dels (videos st)) as -> by by destruct dels.
  destruct (reply_text chat _ w2) as [[m|] w3]; simpl.
  - exists n1, w1, tr1, dels, n2, w2, tr2, (Some m), [].
    split_and!; try done.
  - unfold delete_failed.
    destruct (reply_text chat DeleteFailed w3) as [res w4]. simpl.
    exists n1, w1, tr1, dels, n2, w2, tr2, None,
      [Reply chat DeleteFailed res].
    split_and!; try done.
    + by rewrite <- !app_assoc.
    + repeat constructor.
Qed.

(** X10.  When [delete_duplicates] passes both checks on a table that
    respects its primary key and every [delete_message] call of the
    duplicates loop succeeds, what is left in [videos] is exactly the kept
    occurrence of each key: no file_unique_id is stored more than once any
    more, and the duplicates query has nothing left to return. *)
Theorem successful_cleanup_leaves_one_row_per_key
    chat user now (st : bot_state) w usage status w1 :
  pk_unique (videos st) →
  rate_limit DELETE_COOLDOWN (last_delete_usage st) chat now
  = Allowed usage →
  get_member chat user w = (Some status, w1) →
  is_admin status = true →
  Forall (λ e, is_failed_duplicate_delete e = false)
         (delete_duplicates chat user now st w).2 →
  (∀ r, r ∈ videos (delete_duplicates chat user now st w).1.1 ↔
        kept (videos st) r) ∧
  (∀ u, rows_with u (videos (delete_duplicates chat user now st w).1.1) ≤ 1) ∧
  select_duplicates (videos (delete_duplicates chat user now st w).1.1) = [].
Proof.
  intros Hpk Hgate Hmem Hadm Hall.
  destruct (delete_duplicates_passed chat user now st w usage status w1
              Hgate Hmem Hadm) as (w2 & Hv & Hev).
  rewrite Forall_forall in Hall.
  assert (∀ r, r ∈ videos (delete_duplicates chat user now st w).1.1 ↔
               kept (videos st) r) as Hkept.
  { intros r. split; [|by apply kept_row_survives].
    rewrite Hv. intros [Hr Hnin]%elem_of_delete_videos.
    destruct (kept_or_later _ _ Hpk Hr) as [?|(rp & Hrp & Hu & Hlt)];
      [done|].
    destruct (later_row_is_targeted (videos st) w2 r rp Hpk Hr Hrp Hu Hlt)
      as [ok Hin].
    exfalso. apply Hnin, videos_to_delete_spec. exists (chat_id r).
    destruct ok; [done|]. apply Hev in Hin. by apply Hall in Hin. }
  assert (∀ u, rows_with u
                 (videos (delete_duplicates chat user now st w).1.1) ≤ 1)
    as Hone.
  { intros u. unfold rows_with.
    assert (NoDup (filter (λ r, file_unique_id r = u)
                     (videos (delete_duplicates chat user now st w).1.1)))
      as Hnd.
    { apply NoDup_filter, (NoDup_fmap_1 video_key).
      by apply pk_unique_delete_duplicates. }
    assert (∀ x y,
              x ∈ filter (λ r, file_unique_id r = u)
                    (videos (delete_duplicates chat user now st w).1.1) →
              y ∈ filter (λ r, file_unique_id r = u)
                    (videos (delete_duplicates chat user now st w).1.1) →
              x = y) as Hsame.
    { intros x y [Hxu Hx]%list_elem_of_filter [Hyu Hy]%list_elem_of_filter.
      apply Hkept in Hx as [Hx Hxmin]. apply Hkept in Hy as [Hy Hymin].
      apply (pk_unique_inj (videos st)); try done.
      assert (message_id x ≤ message_id y) by (apply Hxmin; congruence).
      assert (message_id y ≤ message_id x) by (apply Hymin; congruence).
      unfold video_key. f_equal; [congruence|lia]. }
    destruct (filter (λ r, file_unique_id r = u)
                (videos (delete_duplicates chat user now st w).1.1))
      as [|a [|b l]]; simpl; [lia|lia|].
    exfalso. apply NoDup_cons in Hnd as [Hna _]. apply Hna.
    rewrite (Hsame a b) by (repeat constructor). by left. }
  split_and!; [done|done|].
  unfold select_duplicates.
  destruct (duplicate_rows
              (videos (delete_duplicates chat user now st w).1.1))
    as [|x l] eqn:Hd; [done|].
  assert (x ∈ duplicate_rows
                (videos (delete_duplicates chat user now st w).1.1))
    as [_ Hgt]%duplicate_rows_elem by (rewrite Hd; by left).
  specialize (Hone (file_unique_id x)). lia.
Qed.

(** X11.  When [delete_duplicates] passes both checks on a table that
    respects its primary key, the closing log line and the summary sent to
    the requester carry the same three numbers: the number of report
    messages whose deletion succeeded, the number of duplicates deleted,
    which is the number of rows [videos] has lost, and their sum. *)
Theorem cleanup_summary_counts_what_was_removed
    chat user now (st : bot_state) w usage status w1 :
  pk_unique (videos st) →
  rate_limit DELETE_COOLDOWN (last_delete_usage st) chat now
  = Allowed usage →
  get_member chat user w = (Some status, w1) →
  is_admin status = true →
  ∃ reports duplicates res,
    LogDeleteCompleted (reports + duplicates) reports duplicates chat
      ∈ (delete_duplicates chat user now st w).2 ∧
    Reply chat (DeletedSummary (reports + duplicates) reports duplicates) res
      ∈ (delete_duplicates chat user now st w).2 ∧
    reports
    = length (filter (λ e, is_successful_report_delete e = true)
                     (delete_duplicates chat user now st w).2) ∧
    (length (videos (delete_duplicates chat user now st w).1.1) + duplicates
     = length (videos st))%nat.
Proof.
  intros Hpk Hgate Hmem Hadm.
  destruct (delete_duplicates_runs_cleanup chat user now st w usage status
              w1 Hgate Hmem Hadm) as [Hst Htr].
  set (st1 := BotState (videos st) (report_messages st) (report_seq st)
                       (last_report_usage st) usage) in *.
  destruct (cleanup_trace chat st1 w1)
    as (n1 & w2 & tr1 & dels & n2 & w3 & tr2 & res & rest
        & Hrep & Hdup & Hct & Hrest & Hv).
  destruct (delete_report_loop_trace chat
              (select_report_messages chat (report_messages st1)) w1)
    as [_ Hn1].
  destruct (delete_duplicate_loop_dels (select_duplicates (videos st1))
              None w2) as [Hsub Hn2].
  rewrite Hrep in Hn1. rewrite Hdup in Hsub, Hn2. cbn [fst snd] in *.
  exists n1, n2, res. rewrite Hst, Htr, Hct, Hv. split_and!.
  - right. rewrite !elem_of_app. right. right. by left.
  - right. rewrite !elem_of_app. right. right. right. by left.
  - rewrite filter_cons, decide_False by done.
    rewrite !filter_app, !length_app, <- Hn1.
    rewrite (filter_none _ tr2).
    2:{ intros e He.
        assert (e ∈ (delete_duplicate_loop (select_duplicates (videos st1))
                                           None w2).2) as He'
          by by rewrite Hdup.
        apply duplicate_loop_only_deletes in He' as (?&?&?&?&->). done. }
    rewrite filter_cons, decide_False by done.
    rewrite filter_cons, decide_False by done.
    rewrite (filter_none _ rest).
    2:{ intros e He. rewrite Forall_forall in Hrest.
        specialize (Hrest e He). by destruct e. }
    simpl. lia.
  - subst n2. apply delete_videos_length; [done| |].
    + eapply sublist_NoDup; [|exact Hsub].
      unfold select_duplicates. rewrite <- list_fmap_compose.
      by apply (duplicate_rows_pk (videos st)).
    + intros k Hk. eapply elem_of_sublist in Hk; [|exact Hsub].
      unfold select_duplicates in Hk. rewrite <- list_fmap_compose in Hk.
      apply list_elem_of_fmap in Hk as (r & -> & [Hr _]%duplicate_rows_elem).
      by apply list_elem_of_fmap_2.
Qed.

(** X12.  When [delete_duplicates] passes both checks, the report-messages
    loop calls [delete_message] once for each report row stored for the
    chat, in the order they are stored, and for no other message; the
    report rows of other chats are kept, in their order. *)
Theorem cleanup_tries_every_report_message_of_the_chat
    chat user now (st : bot_state) w usage status w1 :
  rate_limit DELETE_COOLDOWN (last_delete_usage st) chat now
  = Allowed usage →
  get_member chat user w = (Some status, w1) →
  is_admin status = true →
  omap report_delete_of (delete_duplicates chat user now st w).2
  = report_message_id
      <$> filter (λ x, report_chat_id x = chat) (report_messages st) ∧
  report_messages (delete_duplicates chat user now st w).1.1
  = filter (λ x, report_chat_id x ≠ chat) (report_messages st).
Proof.
  intros Hgate Hmem Hadm.
  destruct (delete_duplicates_runs_cleanup chat user now st w usage status
              w1 Hgate Hmem Hadm) as [Hst Htr].
  set (st1 := BotState (videos st) (report_messages st) (report_seq st)
                       (last_report_usage st) usage) in *.
  destruct (cleanup_trace chat st1 w1)
    as (n1 & w2 & tr1 & dels & n2 & w3 & tr2 & res & rest
        & Hrep & Hdup & Hct & Hrest & _).
  destruct (cleanup_effect chat st1 w1) as (_ & _ & Hrm & _).
  destruct (delete_report_loop_trace chat
              (select_report_messages chat (report_messages st1)) w1)
    as [Hmids _].
  rewrite Hrep in Hmids. cbn [fst snd] in *.
  rewrite Hst, Htr, Hct, Hrm. split; [|done].
  cbn [omap list_omap report_delete_of]. rewrite !omap_app, Hmids.
  rewrite (omap_none _ tr2).
  2:{ intros e He.
      assert (e ∈ (delete_duplicate_loop (select_duplicates (videos st1))
                                         None w2).2) as He'
        by by rewrite Hdup.
      apply duplicate_loop_only_deletes in He' as (?&?&?&?&->). done. }
  cbn [omap list_omap report_delete_of app].
  rewrite (omap_none _ rest).
  2:{ intros e He. rewrite Forall_forall in Hrest.
      specialize (Hrest e He). by destruct e. }
  by rewrite app_nil_r.
Qed.

(** X13.  [delete_duplicates] does not recompute the [count] column: if
    the counts were right before the run and the run removed a row, then
    afterwards the counts are wrong, for the kept occurrence of the
    removed row's key still carries the old number. *)
Theorem cleanup_leaves_stale_counts
    chat user now (st : bot_state) w r :
  pk_unique (videos st) →
  count_consistent (videos st) →
  r ∈ videos st →
  r ∉ videos (delete_duplicates chat user now st w).1.1 →
  ¬ count_consistent (videos (delete_duplicates chat user now st w).1.1).
Proof.
  intros Hpk Hcc Hr Hgone Hcc'.
  destruct (kept_exists _ _ Hr) as (k & Hk & Hu).
  pose proof (kept_row_survives chat user now st w k Hpk Hk) as Hk'.
  specialize (Hcc' k Hk'). destruct Hk as [Hk _].
  specialize (Hcc k Hk). rewrite Hcc, Hu in Hcc'.
  destruct (delete_duplicates_effect chat user now st w)
    as [[Hv _]|(w1 & Hv & _)]; rewrite Hv in *; [done|].
  rewrite delete_videos_filter in Hcc', Hgone.
  set (dels := (delete_duplicate_loop (select_duplicates (videos st))
                                      None w1).1.1.1) in *.
  assert (¬ (video_key r ∉ dels)) as Hin.
  { intros Hn. apply Hgone. by apply list_elem_of_filter. }
  unfold rows_with in Hcc'.
  assert (filter (λ x, file_unique_id x = file_unique_id r)
            (filter (λ x, video_key x ∉ dels) (videos st))
          = filter (λ x, video_key x ∉ dels)
              (filter (λ x, file_unique_id x = file_unique_id r)
                      (videos st))) as Hswap.
  { rewrite !list_filter_filter. apply list_filter_iff. intros x. tauto. }
  rewrite Hswap in Hcc'.
  assert (r ∈ filter (λ x, file_unique_id x = file_unique_id r) (videos st))
    as Hrf by by apply list_elem_of_filter.
  pose proof (length_filter_lt (λ x, video_key x ∉ dels) _ r Hrf Hin).
  lia.
Qed.

(** X14.  Whatever way [delete_duplicates] takes, it leaves the report
    cooldown and the id sequence of [report_messages] as they are, touches
    the delete cooldown of no other chat, keeps the report rows of every
    other chat, and adds no row to [videos]. *)
Theorem cleanup_stays_within_its_chat chat user now (st : bot_state) w :
  last_report_usage (delete_duplicates chat user now st w).1.1
  = last_report_usage st ∧
  report_seq (delete_duplicates chat user now st w).1.1 = report_seq st ∧
  (∀ c, c ≠ chat →
        last_delete_usage (delete_duplicates chat user now st w).1.1 !! c
        = last_delete_usage st !! c) ∧
  filter (λ x, report_chat_id x ≠ chat)
         (report_messages (delete_duplicates chat user now st w).1.1)
  = filter (λ x, report_chat_id x ≠ chat) (report_messages st) ∧
  videos (delete_duplicates chat user now st w).1.1
    `sublist_of` videos st.
Proof.
  unfold delete_duplicates, could_not_verify, delete_failed.
  destruct (rate_limit _ _ _ _) as [usage|remaining] eqn:Hgate.
  - apply rate_limit_allowed_inv in Hgate as ->.
    destruct (get_member chat user w) as [[status|] w1].
    + destruct (is_admin status).
      * destruct (cleanup_unfold chat
                    (BotState (videos st) (report_messages st)
                       (report_seq st) (last_report_usage st)
                       (<[chat:=now]> (last_delete_usage st))) w1)
          as (?&?&?&dels&?&?&?&?&_&_&Hst&_&_).
        destruct (cleanup _ _ _) as [[st2 w2] tr]. simpl in *.
        rewrite Hst. simpl.
        split_and!; [done|done|by intros; apply lookup_insert_ne| |].
        -- unfold clear_report_messages. rewrite list_filter_filter.
           apply list_filter_iff. intros row. tauto.
        -- rewrite delete_videos_filter. apply sublist_filter.
      * repeat (destruct (reply_text _ _ _) as [[?|] ?]; simpl);
          (split_and!; [done|done|by intros; apply lookup_insert_ne|done|done]).
    + repeat (destruct (reply_text _ _ _) as [[?|] ?]; simpl);
        (split_and!; [done|done|by intros; apply lookup_insert_ne|done|done]).
  - repeat (destruct (reply_text _ _ _) as [[?|] ?]; simpl); done.
Qed.

End deletion_more.

(** ** The primary key in every reachable state *)

Section reachable.
Context {World : Type} {surface : Surface World} {engine : Engine}.

Lemma report_command_videos chat now (st : bot_state) (w : World) :
  videos (report_command chat now st w).1.1 = videos st.
Proof.
  unfold report_command, report_failed.
  destruct (rate_limit _ _ _ _) as [usage|remaining].
  - cbn beta iota zeta. cbn [videos].
    destruct (select_repeated (videos st)) as [|t repeated].
    + by repeat (destruct (reply_text _ _ _) as [[?|] ?]; simpl).
    + cbn beta iota. generalize (take MAX_REPORT_VIDEOS (t :: repeated)).
      intros items.
      destruct (reply_text chat _ w) as [[hid|] w1].
      * destruct (report_loop chat 1 items w1) as [[[arts sent] w2] tr].
        by destruct (insert_report_messages _ _) as [rows seq'].
      * by destruct (reply_text _ _ _) as [? ?].
  - by repeat (destruct (reply_text _ _ _) as [[?|] ?]; simpl).
Qed.

Lemma pk_unique_handle (i : invocation) (st : bot_state) (w : World) :
  pk_unique (videos st) → pk_unique (videos (handle i st w).1).
Proof.
  intros Hpk. destruct i as [upd|chat now|chat user now|chat]; simpl.
  - by apply pk_unique_video_handler.
  - pose proof (report_command_videos chat now st w) as Hv.
    destruct (report_command chat now st w) as [[st' w'] tr]. simpl in *.
    by rewrite Hv.
  - pose proof (pk_unique_delete_duplicates chat user now st w Hpk) as H.
    by destruct (delete_duplicates chat user now st w) as [[st' w'] tr].
  - done.
Qed.

(** X15.  Starting from empty tables and running the four handlers in any
    order, one update at a time, on any updates and with any answers of
    the messaging surface, no two rows of [videos] ever share their
    (file_unique_id, message_id): the table respects its primary key in
    every state the bot reaches. *)
Theorem primary_key_holds_in_every_reachable_state
    (invs : list invocation) usage_r usage_d (w : World) :
  pk_unique (videos (handle_all invs (BotState [] [] 0 usage_r usage_d) w).1).
Proof.
  assert (∀ st w', pk_unique (videos st) →
                   pk_unique (videos (handle_all invs st w').1)) as Hgen.
  { induction invs as [|i invs IH]; intros st w' Hpk; [done|].
    unfold handle_all. simpl.
    pose proof (pk_unique_handle i st w' Hpk) as Hstep.
    destruct (handle i st w') as [st1 w1]. by apply IH. }
  apply Hgen. constructor.
Qed.

End reachable.

(** The witness of X8: user 2 is a plain member. *)
Lemma only_admins_delete_witness :
  Forall (λ e, is_delete e = false)
         (delete_duplicates 5 2 1000 cleanup_example 100).2 ∧
  videos (delete_duplicates 5 2 1000 cleanup_example 100).1.1
  = videos cleanup_example ∧
  report_messages (delete_duplicates 5 2 1000 cleanup_example 100).1.1
  = report_messages cleanup_example.
Proof.
  apply (only_admins_delete 5 2 1000 cleanup_example 100).
  intros status Hs. vm_compute in Hs. injection Hs as <-.
  vm_compute. reflexivity.
Defined.

(** The witness of X9: the second "b" of [cleanup_example]. *)
Lemma every_later_occurrence_is_targeted_witness :
  (∃ ok, DeleteDuplicate (file_unique_id (example_row "b" 20))
           (message_id (example_row "b" 20))
           (chat_id (example_row "b" 20)) ok
           ∈ (delete_duplicates 5 1 1000 cleanup_example 100).2) ↔
  ¬ kept (videos cleanup_example) (example_row "b" 20).
Proof.
  apply (every_later_occurrence_is_targeted 5 1 1000 cleanup_example 100
           (<[5 := 1000%Q]> ∅) "administrator" 100 (example_row "b" 20)).
  - unfold pk_unique. refine (bool_decide_unpack _ _). vm_compute. exact I.
  - vm_compute. reflexivity.
  - reflexivity.
  - reflexivity.
  - refine (bool_decide_unpack _ _). vm_compute. exact I.
Defined.

(** The witness of X10: two sets of two, every deletion succeeds. *)
Lemma successful_cleanup_leaves_one_row_per_key_witness :
  (∀ r, r ∈ videos (delete_duplicates 5 1 1000
                      (empty_state two_tied_sets) 100).1.1 ↔
        kept (videos (empty_state two_tied_sets)) r) ∧
  (∀ u, rows_with u
          (videos (delete_duplicates 5 1 1000
                     (empty_state two_tied_sets) 100).1.1) ≤ 1) ∧
  select_duplicates
    (videos (delete_duplicates 5 1 1000
               (empty_state two_tied_sets) 100).1.1) = [].
Proof.
  apply (successful_cleanup_leaves_one_row_per_key 5 1 1000
           (empty_state two_tied_sets) 100
           (<[5 := 1000%Q]> ∅) "administrator" 100).
  - unfold pk_unique. refine (bool_decide_unpack _ _). vm_compute. exact I.
  - vm_compute. reflexivity.
  - reflexivity.
  - reflexivity.
  - refine (bool_decide_unpack _ _). vm_compute. exact I.
Defined.

(** The witness of X11, on [cleanup_example]. *)
Lemma cleanup_summary_counts_what_was_removed_witness :
  ∃ reports duplicates res,
    LogDeleteCompleted (reports + duplicates) reports duplicates 5
      ∈ (delete_duplicates 5 1 1000 cleanup_example 100).2 ∧
    Reply 5 (DeletedSummary (reports + duplicates) reports duplicates) res
      ∈ (delete_duplicates 5 1 1000 cleanup_example 100).2 ∧
    reports
    = length (filter (λ e, is_successful_report_delete e = true)
                     (delete_duplicates 5 1 1000 cleanup_example 100).2) ∧
    (length (videos (delete_duplicates 5 1 1000 cleanup_example 100%Z).1.1)
     + duplicates
     = length (videos cleanup_example))%nat.
Proof.
  apply (cleanup_summary_counts_what_was_removed 5 1 1000 cleanup_example
           100 (<[5 := 1000%Q]> ∅) "administrator" 100).
  - unfold pk_unique. refine (bool_decide_unpack _ _). vm_compute. exact I.
  - vm_compute. reflexivity.
  - reflexivity.
  - reflexivity.
Defined.

(** The witness of X12, on [cleanup_example]. *)
Lemma cleanup_tries_every_report_message_of_the_chat_witness :
  omap report_delete_of (delete_duplicates 5 1 1000 cleanup_example 100).2
  = report_message_id
      <$> filter (λ x, report_chat_id x = 5)
            (report_messages cleanup_example) ∧
  report_messages (delete_duplicates 5 1 1000 cleanup_example 100).1.1
  = filter (λ x, report_chat_id x ≠ 5) (report_messages cleanup_example).
Proof.
  apply (cleanup_tries_every_report_message_of_the_chat 5 1 1000
           cleanup_example 100 (<[5 := 1000%Q]> ∅) "administrator" 100).
  - vm_compute. reflexivity.
  - reflexivity.
  - reflexivity.
Defined.

(** The witness of X13: the second "a" of [two_tied_sets] is removed, the
    first one keeps count 2. *)
Lemma cleanup_leaves_stale_counts_witness :
  ¬ count_consistent
      (videos (delete_duplicates 5 1 1000
                 (empty_state two_tied_sets) 100).1.1).
Proof.
  apply (cleanup_leaves_stale_counts 5 1 1000 (empty_state two_tied_sets)
           100 (example_row "a" 40)).
  - unfold pk_unique. refine (bool_decide_unpack _ _). vm_compute. exact I.
  - unfold count_consistent. apply Forall_forall.
    refine (bool_decide_unpack _ _). vm_compute. exact I.
  - refine (bool_decide_unpack _ _). vm_compute. exact I.
  - refine (bool_decide_unpack _ _). vm_compute. exact I.
Defined.

(** ** Two more consequences *)

Section more_consequences.
Context {World : Type} {surface : Surface World} {engine : Engine}.

(** X16.  The cooldown compares clock readings, not elapsed time: if the
    clock reads [now] at or before the recorded time [t0] of the last
    invocation (the clock was set back), the command of either family is
    denied, nothing in the state changes, and the notice announces a wait
    of at least the whole window. *)
Theorem clock_set_back_keeps_command_denied
    (f : family) (chat user : Z) (t0 now : Q) (st : bot_state) (w : World) :
  usage_of f st !! chat = Some t0 →
  (now <= t0)%Q →
  (run_command f chat user now st w).1.1 = st ∧
  ∃ n res,
    head (run_command f chat user now st w).2
    = Some (Reply chat (wait_notice f n) res) ∧
    window f ≤ n.
Proof.
  intros Hlast Hle.
  assert (now - t0 <= 0)%Q as Hdiff.
  { apply (Qplus_le_l _ _ t0). by ring_simplify. }
  assert (now - t0 < inject_Z (window f))%Q as Hlt.
  { eapply Qle_lt_trans; [exact Hdiff|]. by destruct f. }
  destruct (run_command_denied f chat user now st w
              (py_int (inject_Z (window f) - (now - t0))))
    as (Hst & [res Hhd] & _); [by apply rate_limit_denied|].
  split; [done|]. eexists _, res. split; [exact Hhd|].
  rewrite remaining_is_floor by done.
  rewrite <- (Qfloor_Z (window f)) at 1. apply Qfloor_resp_le.
  apply (Qplus_le_l _ _ (now - t0)). ring_simplify.
  apply (Qplus_le_l _ _ (- inject_Z (window f))). by ring_simplify.
Qed.

(** X17.  After any sequence of [video_handler] calls on an empty table,
    the report query lists a file_unique_id exactly when it was seen under
    at least two different message ids, whatever order the engine visits
    the table in. *)
Theorem reported_iff_seen_in_two_messages
    (upds : list (option video_update)) (u : string) :
  u ∈ rr_unique_id <$> select_repeated (record_all upds []) ↔
  (2 ≤ length (seen_messages u upds))%nat.
Proof.
  assert (u ∈ rr_unique_id <$> select_repeated (record_all upds []) ↔
          1 < rows_with u (record_all upds [])) as ->.
  { rewrite list_elem_of_fmap. split.
    - intros (t & -> & [Ht Hgt]%elem_of_select_repeated).
      apply elem_of_group_by_unique_id in Ht as [_ Hn].
      by rewrite <- rows_with_visit, <- Hn.
    - intros Hgt.
      assert (u ∈ rr_unique_id
                    <$> group_by_unique_id (visit (record_all upds [])))
        as (t & -> & Ht)%list_elem_of_fmap.
      { rewrite group_by_unique_id_keys, elem_of_remove_dups.
        apply rows_with_pos. rewrite rows_with_visit. lia. }
      exists t. split; [done|]. apply elem_of_select_repeated.
      split; [done|].
      apply elem_of_group_by_unique_id in Ht as [_ ->].
      by rewrite rows_with_visit. }
  unfold rows_with.
  rewrite <- (length_fmap message_id),
    (Permutation_length (recorded_messages_of_key upds u)).
  lia.
Qed.

End more_consequences.

(** The witness of X16: armed at 1000, asked again with the clock at
    990. *)
Lemma clock_set_back_keeps_command_denied_witness :
  (run_command (engine := sqlite_engine) DeleteFamily 5 1 990
     (armed_state 1000) 100).1.1 = armed_state 1000 ∧
  ∃ n res,
    head (run_command (engine := sqlite_engine) DeleteFamily 5 1 990
            (armed_state 1000) 100).2
    = Some (Reply 5 (wait_notice DeleteFamily n) res) ∧
    window DeleteFamily ≤ n.
Proof.
  apply (clock_set_back_keeps_command_denied (engine := sqlite_engine)
           DeleteFamily 5 1 1000 990 (armed_state 1000) 100).
  - vm_compute. reflexivity.
  - vm_compute. discriminate.
Defined.
